(** * listener.py: the online anomaly-detection engine

    A shallow embedding of [src/listener.py] and the properties of its
    statistics tracker, z-score evaluator, run-length tracker, severity
    classifier, diagnosis generator, emission gate and event emitter.

    Python's [float] is IEEE 754 binary64, which is the kernel's primitive
    [float]: [+], [-], [*], [/], [sqrt], [abs] and the comparisons below are
    the very operations the interpreter performs, NaN, infinities, signed
    zeros, rounding and underflow included.  What Python adds on top of the
    processor (the exceptions of [math.sqrt], of [/], of [float()] and of
    [json.loads]) is written out in the error monad [res]. *)

From Stdlib Require Import ZArith Lia Floats.
From stdpp Require Import base option list strings gmap.

#[local] Set Warnings "-inexact-float,-register-all".

(** ** Python exceptions and the error monad *)

Inductive exn : Type :=
  | ValueError | ZeroDivisionError | TypeError | AttributeError | KeyError
  | OverflowError | RecursionError.

Inductive res (A : Type) : Type :=
  | Ok (a : A)
  | Raise (e : exn).
Arguments Ok {A} a.
Arguments Raise {A} e.

#[global] Instance res_ret : MRet res := λ A a, Ok a.
#[global] Instance res_bind : MBind res := λ A B k r,
  match r with
  | Ok a => k a
  | Raise e => Raise e
  end.

(** ** Config *)

Definition SIGNALS : list string :=
  ["nozzle_temp_c"; "bed_temp_c"; "extruder_flow_mm3_s"; "print_speed_mm_s"].

Definition ALPHA : float := 0.05.
Definition EPS : float := 1e-9.
Definition WARN_Z : float := 3.0.
Definition ALERT_Z : float := 4.5.
Definition RUNLEN_ALERT : nat := 6.
Definition DEDUP_COOLDOWN_S : float := 3.0.
Definition TREND_WINDOW : nat := 80.

(** ** Helpers *)

(** [class EWStats]: exponentially weighted mean and variance. *)
Module EWStats.
Record t : Type := mk { alpha : float; mean : option float; var : option float }.

Definition init (alpha : float) : t := mk alpha None None.

(** [update(self, x)] returns the mutated object and the pair it returns. *)
Definition update (self : t) (x : float) : t * (float * float) :=
  match mean self with
  | None => (mk (alpha self) (Some x) (Some 0%float), (x, 0%float))
  | Some m_prev =>
      let mean' := (alpha self * x + (1 - alpha self) * m_prev)%float in
      let resid := (x - m_prev)%float in
      let var' :=
        (alpha self * (resid * resid)
         + (1 - alpha self) * default 0%float (var self))%float in
      (mk (alpha self) (Some mean') (Some var'), (mean', var'))
  end.

(** The object after the calls [update(x)] for the [x] of [xs], in order. *)
Definition feed (self : t) (xs : list float) : t :=
  foldl (λ o x, (update o x).1) self xs.
End EWStats.

(** [class RunLength]: counts consecutive samples with [abs(z) >= threshold]. *)
Module RunLength.
Record t : Type := mk { threshold : float; count : nat }.

Definition init (threshold : float) : t := mk threshold 0.

Definition update (self : t) (z : float) : t * nat :=
  if (threshold self <=? abs z)%float
  then (mk (threshold self) (S (count self)), S (count self))
  else (mk (threshold self) 0, 0).

(** The object after the calls [update(z)] for the [z] of [zs], in order,
    and the counts these calls returned. *)
Fixpoint feed (self : t) (zs : list float) : t * list nat :=
  match zs with
  | [] => (self, [])
  | z :: zs' =>
      let '(self', c) := update self z in
      let '(self'', cs) := feed self' zs' in
      (self'', c :: cs)
  end.
End RunLength.

(** [math.sqrt] raises [ValueError] on a negative argument (minus infinity
    included); NaN and [-0.0] go through. *)
Definition math_sqrt (a : float) : res float :=
  if (a <? 0)%float then Raise ValueError else Ok (sqrt a).

(** [a / b] on floats raises [ZeroDivisionError] when [b == 0.0]. *)
Definition truediv (a b : float) : res float :=
  if (b =? 0)%float then Raise ZeroDivisionError else Ok (a / b)%float.

Definition zscore (x : float) (mean var : option float) : res float :=
  let num := (x - default 0%float mean)%float in
  den ← math_sqrt (default 0%float var + EPS)%float;
  truediv num den.

(** ** Severity (lines 154-159 of [main]) *)

Inductive severity : Type := WARN | ALERT.

Definition decide_severity (z : float) (rl : nat) : option severity :=
  if (ALERT_Z <=? abs z)%float || (RUNLEN_ALERT <=? rl)%nat then Some ALERT
  else if (WARN_Z <=? abs z)%float then Some WARN
  else None.

(** ** Diagnosis *)

(** [recent[i+1] - recent[i] for i in range(len(recent) - 1)] *)
Definition first_differences (recent : list float) : list float :=
  zip_with (λ a b, (b - a)%float) recent (tail recent).

(** [sum(1 for i in range(len(diffs) - 1) if diffs[i] * diffs[i+1] < 0)] *)
Definition sign_changes (diffs : list float) : nat :=
  length (List.filter (λ p, (p.1 * p.2 <? 0)%float) (zip diffs (tail diffs))).

(** The float Python makes of a list length or a count; exact below [2^53]. *)
Definition float_of_nat (n : nat) : float :=
  of_uint63 (Uint63.of_Z (Z.of_nat n)).

(** [sign_changes > len(diffs) * 0.35], guarded by [len(recent) >= 20].
    Python compares the int with the float product exactly, which for counts
    below [2^53] is the float comparison written here. *)
Definition oscillating (recent : list float) : bool :=
  if (20 <=? length recent)%nat then
    let diffs := first_differences recent in
    (float_of_nat (length diffs) * 0.35 <? float_of_nat (sign_changes diffs))%float
  else false.

Definition short_diagnosis (signal : string) (z value : float)
    (context : gmap string (list float)) : string * list string :=
  let s := signal in
  let sign := if (0 <? z)%float then "high" else "low" in
  if String.eqb s "extruder_flow_mm3_s" then
    if (z <? 0)%float then
      ("Possible under-extrusion (flow low).",
       ["Increase nozzle temp +5 °C";
        "Reduce print speed −10%";
        "Check for partial clog / filament path"])
    else
      ("Possible over-extrusion (flow high).",
       ["Reduce extrusion multiplier −5–10%";
        "Lower nozzle temp −5 °C if over-melting"])
  else if String.eqb s "nozzle_temp_c" then
    if (z <? 0)%float then
      ("Nozzle temp below trend (heater lag / draft).",
       ["Raise nozzle temp +3–5 °C";
        "Reduce fan / shield from drafts";
        "Check heater PID / power"])
    else
      ("Nozzle temp above trend.",
       ["Lower nozzle temp −3–5 °C";
        "Verify fan RPM / PID gains"])
  else if String.eqb s "bed_temp_c" then
    let recent := default [] (context !! "recent") in
    if oscillating recent then
      ("Bed temp oscillating (PID/drafts).",
       ["Tune bed PID";
        "Cover enclosure / reduce drafts";
        "Allow more warm-up time"])
    else
      ("Bed temp " +:+ sign +:+ " vs trend.",
       ["Adjust bed temp ±3 °C";
        "Check enclosure / drafts / PID"])
  else if String.eqb s "print_speed_mm_s" then
    if (0 <? z)%float then
      ("Print speed above trend (could trigger flow/adhesion issues).",
       ["Consider −10% speed";
        "Verify extrusion keeps up"])
    else
      ("Print speed below trend.",
       ["Check if speed reductions are intentional";
        "Re-balance temp vs. speed"])
  else (s +:+ " " +:+ sign +:+ " vs expected.", ["Inspect recent changes"]).

(** ** Records and output units *)

(** What [json.loads] returns.  A JSON number written as an integer is a
    Python [int] of any size; one with a fraction or an exponent is a
    [float] ([Infinity], [NaN] and literals such as [1e999] included, which
    [json.loads] accepts); an object is kept as the key/value pairs of the
    resulting dict, whose keys are distinct. *)
Inductive json : Type :=
  | JNull
  | JBool (b : bool)
  | JInt (n : Z)
  | JNum (x : float)
  | JStr (s : string)
  | JArr (l : list json)
  | JObj (kv : list (string * json)).

(** What [json.loads] raises besides [JSONDecodeError]: [ValueError] on an
    integer literal with more digits than the interpreter converts, and
    [RecursionError] on nesting that is too deep.  Neither is a
    [JSONDecodeError], so line 135 does not catch them. *)
Inductive loads_failure : Type :=
  | DigitLimit
  | NestingLimit.

Definition loads_exn (f : loads_failure) : exn :=
  match f with
  | DigitLimit => ValueError
  | NestingLimit => RecursionError
  end.

(** An input line: blank after [strip()], rejected by [json.loads] with
    [JSONDecodeError], making [json.loads] raise another exception, or
    decoded. *)
Inductive line : Type :=
  | Blank
  | Undecodable
  | Failing (f : loads_failure)
  | Decoded (rec : json).

Fixpoint assoc (kv : list (string * json)) (k : string) : option json :=
  match kv with
  | [] => None
  | (k', v) :: kv' => if String.eqb k' k then Some v else assoc kv' k
  end.

(** [rec.get(k, dflt)]: only a dict has [get]. *)
Definition get (rec : json) (k : string) (dflt : json) : res json :=
  match rec with
  | JObj kv => Ok (default dflt (assoc kv k))
  | _ => Raise AttributeError
  end.

Definition is_JStr (s : string) (v : json) : bool :=
  match v with JStr t => String.eqb s t | _ => false end.

(** [s in sigs]: key test on a dict, element test on a list, substring test
    on a string, [TypeError] on anything else. *)
Definition contains (sigs : json) (s : string) : res bool :=
  match sigs with
  | JObj kv => Ok (bool_decide (is_Some (assoc kv s)))
  | JArr l => Ok (existsb (is_JStr s) l)
  | JStr t => Ok (bool_decide (is_Some (String.index 0 s t)))
  | _ => Raise TypeError
  end.

(** [sigs[s]] with a string index. *)
Definition getitem (sigs : json) (s : string) : res json :=
  match sigs with
  | JObj kv => from_option Ok (Raise KeyError) (assoc kv s)
  | _ => Raise TypeError
  end.

Record event : Type := {
  ev_ts : json;
  ev_t_sec : json;
  ev_severity : severity;
  ev_signal : string;
  ev_value : float;
  ev_zscore : float;
  ev_message : string;
  ev_suggestions : list string
}.

Record control : Type := {
  ctl_ts : json;
  ctl_t_sec : json;
  ctl_control_action : string;
  ctl_reason : string
}.

(** One printed and flushed line. *)
Inductive output : Type :=
  | Event (e : event)
  | Control (c : control).

(** ** Main loop *)

(** [deque(maxlen=...).append(x)]: the oldest element leaves when full. *)
Definition deque_append (maxlen : nat) (d : list float) (x : float) : list float :=
  let d' := d ++ [x] in
  drop (length d' - maxlen) d'.

Definition severity_str (sev : severity) : string :=
  match sev with WARN => "WARN" | ALERT => "ALERT" end.

(** [f"{severity}:{s}:{'HIGH' if z>0 else 'LOW'}"] *)
Definition dedup_key (sev : severity) (s : string) (z : float) : string :=
  severity_str sev +:+ ":" +:+ s +:+ ":" +:+ (if (0 <? z)%float then "HIGH" else "LOW").

(** The four dictionaries [main] keeps. *)
Record state : Type := {
  stats : gmap string EWStats.t;
  runlen : gmap string RunLength.t;
  recents : gmap string (list float);
  last_emit : gmap string (string * float)
}.

Definition init_state : state := {|
  stats := list_to_map ((λ s, (s, EWStats.init ALPHA)) <$> SIGNALS);
  runlen := list_to_map ((λ s, (s, RunLength.init WARN_Z)) <$> SIGNALS);
  recents := list_to_map ((λ s, (s, [])) <$> SIGNALS);
  last_emit := ∅
|}.

(** [d[s]] on one of the dictionaries. *)
Definition item {V} (d : gmap string V) (s : string) : res V :=
  from_option Ok (Raise KeyError) (d !! s).

(** Lines 148-152 of the loop body: the sample [x] of signal [s] enters the
    statistics, the recent window and the run-length count; the result is the
    updated state with the z-score and the run length of the sample. *)
Definition observe (st : state) (s : string) (x : float) : res (state * float * nat) :=
  es ← item (stats st) s;
  let '(es', (mean, var)) := EWStats.update es x in
  z ← zscore x (Some mean) (Some var);
  dq ← item (recents st) s;
  rls ← item (runlen st) s;
  let '(rls', rl) := RunLength.update rls z in
  Ok ({| stats := <[s := es']> (stats st);
         runlen := <[s := rls']> (runlen st);
         recents := <[s := deque_append TREND_WINDOW dq x]> (recents st);
         last_emit := last_emit st |}, z, rl).

(** The dict [ctrl] of lines 187-192. *)
Definition make_control (ts t_sec : json) (s : string) : control :=
  {| ctl_ts := ts; ctl_t_sec := t_sec;
     ctl_control_action := "PAUSE_PRINT";
     ctl_reason := s +:+ " severe anomaly" |}.

(** [float(n)] on an [int]: the nearest double, ties to even, and
    [OverflowError] when that is beyond the largest double. *)
Definition float_of_int (n : Z) : res float :=
  match binary_normalize prec emax n 0 false with
  | S754_infinity _ => Raise OverflowError
  | r => Ok (SF2Prim r)
  end.

Section Engine.
(** Two builtins of the interpreter, not of this repository: [float(s)] on
    a string ([None] when it raises [ValueError]) and [round(x, ndigits)]. *)
Variable float_of_str : string → option float.
Variable round : float → Z → float.

(** [float(v)] on a decoded JSON value. *)
Definition float_of (v : json) : res float :=
  match v with
  | JInt n => float_of_int n
  | JNum x => Ok x
  | JBool b => Ok (if b then 1 else 0)%float
  | JStr t => from_option Ok (Raise ValueError) (float_of_str t)
  | JNull | JArr _ | JObj _ => Raise TypeError
  end.

(** The dict [event] of lines 172-181. *)
Definition make_event (ts t_sec : json) (sev : severity) (s : string)
    (x z : float) (diag : string) (actions : list string) : event :=
  {| ev_ts := ts; ev_t_sec := t_sec; ev_severity := sev; ev_signal := s;
     ev_value := round x 4; ev_zscore := round z 2;
     ev_message := diag; ev_suggestions := actions |}.

(** The emission part of the loop body (lines 161-194), entered with a
    severity; [now] is what [time.time()] returns there. *)
Definition emit (st : state) (ts t_sec : json) (s : string) (x z : float)
    (sev : severity) (now : float) : state * list output :=
  let '(diag, actions) :=
    short_diagnosis s z x {[ "recent" := default [] (recents st !! s) ]} in
  let key := dedup_key sev s z in
  let last := default 0%float (snd <$> last_emit st !! key) in
  if (DEDUP_COOLDOWN_S <=? now - last)%float then
    let st' := {| stats := stats st; runlen := runlen st; recents := recents st;
                  last_emit := <[key := (diag, now)]> (last_emit st) |} in
    let event := make_event ts t_sec sev s x z diag actions in
    match sev with
    | ALERT =>
        if String.eqb s "extruder_flow_mm3_s" || String.eqb s "nozzle_temp_c"
        then (st', [Event event; Control (make_control ts t_sec s)])
        else (st', [Event event])
    | WARN => (st', [Event event])
    end
  else (st, []).

(** Lines 154-194: decide the severity and, if there is one, go on to the
    emission part. *)
Definition report (st : state) (ts t_sec : json) (s : string) (x z : float)
    (rl : nat) (now : float) : state * list output :=
  match decide_severity z rl with
  | None => (st, [])
  | Some sev => emit st ts t_sec s x z sev now
  end.

(** The body of [for s in SIGNALS] (lines 144-194) for one signal. *)
Definition watch (st : state) (ts t_sec sigs : json) (now : float) (s : string)
    : res (state * list output) :=
  present ← contains sigs s;
  if negb present then Ok (st, []) else
  v ← getitem sigs s;
  x ← float_of v;
  '(st1, z, rl) ← observe st s x;
  Ok (report st1 ts t_sec s x z rl now).

(** [for s in SIGNALS: ...]: what was printed, and the state or the
    exception that ended the loop. *)
Fixpoint watch_all (ss : list string) (st : state) (ts t_sec sigs : json)
    (clock : string → float) : list output * res state :=
  match ss with
  | [] => ([], Ok st)
  | s :: ss' =>
      match watch st ts t_sec sigs (clock s) s with
      | Raise e => ([], Raise e)
      | Ok (st', out) =>
          let '(out', r) := watch_all ss' st' ts t_sec sigs clock in
          (out ++ out', r)
      end
  end.

(** One iteration of [for line in sys.stdin]. *)
Definition on_line (st : state) (l : line) (clock : string → float)
    : list output * res state :=
  match l with
  | Blank | Undecodable => ([], Ok st)
  | Failing f => ([], Raise (loads_exn f))
  | Decoded rec =>
      match get rec "ts" JNull, get rec "t_sec" JNull, get rec "signals" (JObj []) with
      | Ok ts, Ok t_sec, Ok sigs => watch_all SIGNALS st ts t_sec sigs clock
      | Raise e, _, _ | _, Raise e, _ | _, _, Raise e => ([], Raise e)
      end
  end.

(** The loop over the input; an uncaught exception ends the run. *)
Fixpoint run (st : state) (input : list (line * (string → float)))
    : list output * res state :=
  match input with
  | [] => ([], Ok st)
  | (l, clock) :: input' =>
      match on_line st l clock with
      | (out, Raise e) => (out, Raise e)
      | (out, Ok st') =>
          let '(out', r) := run st' input' in
          (out ++ out', r)
      end
  end.

Definition main (input : list (line * (string → float))) : list output * res state :=
  run init_state input.
End Engine.

(** ** Vocabulary of the statements *)

(** [abs(z) >= ALERT_Z or rl >= RUNLEN_ALERT] *)
Definition alert_condition (z : float) (rl : nat) : Prop :=
  (ALERT_Z <=? abs z)%float = true ∨ RUNLEN_ALERT ≤ rl.

(** [abs(z) >= WARN_Z] *)
Definition warn_condition (z : float) : Prop :=
  (WARN_Z <=? abs z)%float = true.

(** *** Floats read through their specification [Prim2SF] *)

(** The exact difference that [SFsub] rounds, for two finite floats. *)
Definition aligned_diff (sx : bool) mx ex (sy : bool) my ey : Z :=
  (cond_Zopp sx (Zpos (shl_align mx ex (Z.min ex ey)).1)
   - cond_Zopp sy (Zpos (shl_align my ey (Z.min ex ey)).1))%Z.

(** A float that is not zero and not NaN, with sign [s]. *)
Definition SF_signed (s : bool) (r : spec_float) : Prop :=
  match r with
  | S754_infinity s' | S754_finite s' _ _ => s' = s
  | S754_zero _ | S754_nan => False
  end.

(** A float with sign [s], or NaN. *)
Definition sign_or_nan (s : bool) (r : spec_float) : Prop :=
  match r with
  | S754_zero s' | S754_infinity s' | S754_finite s' _ _ => s' = s
  | S754_nan => True
  end.

(** A primitive float that is greater than zero (an infinity included). *)
Definition positive_float (x : float) : Prop := SF_signed false (Prim2SF x).

(** A primitive float that is less than zero. *)
Definition negative_float (x : float) : Prop := SF_signed true (Prim2SF x).

(** *** States of the engine *)

(** Signal [s] has its trackers but no sample yet, as every monitored signal
    has when [main] starts. *)
Definition unobserved (st : state) (s : string) : Prop :=
  ∃ es rls dq,
    stats st !! s = Some es ∧ EWStats.mean es = None
    ∧ runlen st !! s = Some rls ∧ RunLength.threshold rls = WARN_Z
    ∧ recents st !! s = Some dq.

(** *** Output streams *)

Definition is_event (o : output) : bool :=
  match o with Event _ => true | Control _ => false end.

(** The number of Events in a stretch of output. *)
Definition count_events (out : list output) : nat :=
  length (List.filter is_event out).

(** The safety-critical signals: flow and heater (nozzle) temperature. *)
Definition safety_critical (s : string) : Prop :=
  s = "extruder_flow_mm3_s" ∨ s = "nozzle_temp_c".

(** An Event that calls for a ControlAction: severity ALERT on a
    safety-critical signal. *)
Definition calls_for_control (e : event) : Prop :=
  ev_severity e = ALERT ∧ safety_critical (ev_signal e).

#[global] Instance severity_eq_dec : EqDecision severity.
Proof. solve_decision. Defined.

#[global] Instance safety_critical_dec s : Decision (safety_critical s).
Proof. unfold safety_critical. apply _. Defined.

#[global] Instance calls_for_control_dec e : Decision (calls_for_control e).
Proof. unfold calls_for_control. apply _. Defined.

(** The ControlAction that accompanies Event [e]. *)
Definition companion (e : event) (c : control) : Prop :=
  ctl_ts c = ev_ts e ∧ ctl_t_sec c = ev_t_sec e
  ∧ ctl_control_action c = "PAUSE_PRINT"
  ∧ ctl_reason c = ev_signal e +:+ " severe anomaly".

(** An output stream in which every ControlAction comes right after the
    Event that calls for it, and every such Event is followed at once by its
    ControlAction: no ControlAction stands alone, follows a WARN Event or
    follows an Event of another signal. *)
Fixpoint paired (out : list output) : Prop :=
  match out with
  | [] => True
  | Control _ :: _ => False
  | Event e :: rest =>
      if decide (calls_for_control e) then
        match rest with
        | Control c :: rest' => companion e c ∧ paired rest'
        | _ => False
        end
      else paired rest
  end.

(** The gate as the specification words it: open when the time since the last
    emission under the key exceeds the cooldown. *)
Definition spec_gate_open (last now : float) : bool :=
  (DEDUP_COOLDOWN_S <? now - last)%float.

(** The gate as the code has it: [now - last >= DEDUP_COOLDOWN_S], where a
    key that has not emitted yet counts as last emitted at time 0.0. *)
Definition gate_open (st : state) (key : string) (now : float) : bool :=
  (DEDUP_COOLDOWN_S <=? now - default 0%float (snd <$> last_emit st !! key))%float.

(** *** Recent windows *)

(** Every adjacent pair of first differences is a sign change as the
    detector counts them: [diffs[i] * diffs[i+1] < 0]. *)
Definition alternating (diffs : list float) : Prop :=
  ∀ i a b, diffs !! i = Some a → diffs !! S i = Some b → (a * b <? 0)%float = true.

(** *** Sample inputs *)

(** A record with time stamps and the given signals, and the clock reading
    for the signals watched in it. *)
Definition sample (now : float) (signals : list (string * json)) : line * (string → float) :=
  (Decoded (JObj [("ts", JStr "t"); ("t_sec", JNum now); ("signals", JObj signals)]),
   λ _, now).

(** A window that goes up and down by one degree at each step. *)
Definition zigzag (n : nat) : list float :=
  (λ i, if Nat.even i then 60%float else 61%float) <$> seq 0 n.

(** First differences that alternate in sign at every adjacent pair, in the
    words of the specification: one of the two is above zero and the other
    below. *)
Definition spec_alternating_in_sign (diffs : list float) : bool :=
  forallb (λ p, (0 <? p.1)%float && (p.2 <? 0)%float
                || (p.1 <? 0)%float && (0 <? p.2)%float)
    (zip diffs (tail diffs)).

(** A window that goes up and down by [1e-200] at each step. *)
Definition tiny_zigzag (n : nat) : list float :=
  (λ i, if Nat.even i then 0%float else 1e-200%float) <$> seq 0 n.

(** *** Trackers, states and inputs in good order *)

(** A float that is [>= 0] (a zero of either sign included) or NaN, read
    through [Prim2SF]. *)
Definition nonneg_or_nan (r : spec_float) : Prop :=
  match r with
  | S754_zero _ | S754_nan => True
  | S754_infinity s | S754_finite s _ _ => s = false
  end.

(** Mean and variance are unset together or set together, and a variance
    that is set is not negative. *)
Definition tracker_ok (es : EWStats.t) : Prop :=
  match EWStats.mean es, EWStats.var es with
  | None, None => True
  | Some _, Some v => (0 <=? v)%float = true ∨ is_nan v = true
  | _, _ => False
  end.

(** The lines the loop passes over with [continue]: blank ones (line 132)
    and those [json.loads] rejects with [JSONDecodeError] (line 136). *)
Definition passed_over (l : line) : bool :=
  match l with Blank | Undecodable => true | Failing _ | Decoded _ => false end.

(** The input without the lines passed over. *)
Definition kept (input : list (line * (string → float)))
    : list (line * (string → float)) :=
  List.filter (λ i, negb (passed_over i.1)) input.

(** A decoded value that is a JSON object. *)
Definition is_object (rec : json) : bool :=
  match rec with JObj _ => true | _ => false end.

(** The trackers of a monitored signal as [main] keeps them: the adaptation
    rate and the threshold are the configured ones, mean and variance are set
    together with a variance that is not negative, the window is within its
    capacity and empty exactly while there is no mean, and the count is 0
    while there is no mean. *)
Definition tracked (st : state) (s : string) : Prop :=
  ∃ es rls dq,
    stats st !! s = Some es ∧ EWStats.alpha es = ALPHA ∧ tracker_ok es
    ∧ runlen st !! s = Some rls ∧ RunLength.threshold rls = WARN_Z
    ∧ recents st !! s = Some dq ∧ length dq ≤ TREND_WINDOW
    ∧ (EWStats.mean es = None ↔ dq = [])
    ∧ (EWStats.mean es = None → RunLength.count rls = 0).

(** The sixteen keys [f"{severity}:{s}:{'HIGH' if z>0 else 'LOW'}"] of the
    monitored signals. *)
Definition all_keys : list string :=
  s ← SIGNALS; sev ← [WARN; ALERT]; [dedup_key sev s 1; dedup_key sev s (-1)].

(** A state in good order: every monitored signal is tracked and the
    last-emission map holds keys of monitored signals only. *)
Definition well_formed (st : state) : Prop :=
  (∀ s, s ∈ SIGNALS → tracked st s)
  ∧ (∀ k, is_Some (last_emit st !! k) → k ∈ all_keys).

(** A line the engine can process: one it passes over, or one decoded to an
    object whose ["signals"] entry, if any, is an object in which the value
    of every monitored signal converts with [float()] (a number other than
    an integer beyond the doubles, a boolean, a string [float()] reads). *)
Definition processable (float_of_str : string → option float) (l : line) : Prop :=
  match l with
  | Blank | Undecodable => True
  | Failing _ => False
  | Decoded (JObj kv) =>
      match assoc kv "signals" with
      | None => True
      | Some (JObj sig) =>
          ∀ s v, s ∈ SIGNALS → assoc sig s = Some v →
                 ∃ x, float_of float_of_str v = Ok x
      | Some _ => False
      end
  | Decoded _ => False
  end.

(** *** Output lines *)

(** The nine diagnoses the monitored signals can get. *)
Definition diagnoses : list (string * list string) :=
  [("Possible under-extrusion (flow low).",
    ["Increase nozzle temp +5 °C"; "Reduce print speed −10%";
     "Check for partial clog / filament path"]);
   ("Possible over-extrusion (flow high).",
    ["Reduce extrusion multiplier −5–10%"; "Lower nozzle temp −5 °C if over-melting"]);
   ("Nozzle temp below trend (heater lag / draft).",
    ["Raise nozzle temp +3–5 °C"; "Reduce fan / shield from drafts";
     "Check heater PID / power"]);
   ("Nozzle temp above trend.",
    ["Lower nozzle temp −3–5 °C"; "Verify fan RPM / PID gains"]);
   ("Bed temp oscillating (PID/drafts).",
    ["Tune bed PID"; "Cover enclosure / reduce drafts"; "Allow more warm-up time"]);
   ("Bed temp high vs trend.",
    ["Adjust bed temp ±3 °C"; "Check enclosure / drafts / PID"]);
   ("Bed temp low vs trend.",
    ["Adjust bed temp ±3 °C"; "Check enclosure / drafts / PID"]);
   ("Print speed above trend (could trigger flow/adhesion issues).",
    ["Consider −10% speed"; "Verify extrusion keeps up"]);
   ("Print speed below trend.",
    ["Check if speed reductions are intentional"; "Re-balance temp vs. speed"])].

(** An output line as the engine prints them: an Event of a monitored signal
    with one of the nine diagnoses, or a ControlAction ["PAUSE_PRINT"] whose
    reason names a safety-critical signal. *)
Definition well_formed_output (o : output) : Prop :=
  match o with
  | Event e =>
      ev_signal e ∈ SIGNALS ∧ (ev_message e, ev_suggestions e) ∈ diagnoses
  | Control c =>
      ctl_control_action c = "PAUSE_PRINT"
      ∧ ∃ s, safety_critical s ∧ ctl_reason c = s +:+ " severe anomaly"
  end.

(** The signals of the Events of a stretch of output, in order. *)
Definition event_signals (out : list output) : list string :=
  omap (λ o, match o with Event e => Some (ev_signal e) | Control _ => None end) out.

(** The time stamps an output line carries. *)
Definition stamps (o : output) : json * json :=
  match o with
  | Event e => (ev_ts e, ev_t_sec e)
  | Control c => (ctl_ts c, ctl_t_sec c)
  end.

(** Signal [s] has its trackers and a mean that is NaN. *)
Definition blind (st : state) (s : string) : Prop :=
  ∃ es rls dq m,
    stats st !! s = Some es ∧ EWStats.mean es = Some m ∧ is_nan m = true
    ∧ runlen st !! s = Some rls ∧ recents st !! s = Some dq.

(** What one signal owns in the state: its three trackers and the
    last-emission entries under its keys.  [same_for s st st']: these are
    in [st'] what they are in [st]. *)
Definition same_for (s : string) (st st' : state) : Prop :=
  stats st' !! s = stats st !! s ∧ runlen st' !! s = runlen st !! s
  ∧ recents st' !! s = recents st !! s
  ∧ ∀ sev z, last_emit st' !! dedup_key sev s z = last_emit st !! dedup_key sev s z.

(** *** Two states met in a run *)

(** The state after one bed sample of 60 degrees. *)
Definition warmed_up : state := {|
  stats := <["bed_temp_c" := EWStats.mk ALPHA (Some 60%float) (Some 0%float)]>
             (stats init_state);
  runlen := runlen init_state;
  recents := <["bed_temp_c" := [60%float]]> (recents init_state);
  last_emit := ∅
|}.

(** The state after one bed sample that is NaN. *)
Definition blinded : state := {|
  stats := <["bed_temp_c" := EWStats.mk ALPHA (Some nan) (Some 0%float)]>
             (stats init_state);
  runlen := runlen init_state;
  recents := <["bed_temp_c" := [nan]]> (recents init_state);
  last_emit := ∅
|}.

(** * Properties *)

(** The decimal literals of the configuration denote these doubles, as
    [float.hex()] prints them. *)
Lemma config_literals :
  ALPHA = 0x1.999999999999ap-5%float
  ∧ EPS = 0x1.12e0be826d695p-30%float
  ∧ WARN_Z = 0x1.8p+1%float
  ∧ ALERT_Z = 0x1.2p+2%float
  ∧ DEDUP_COOLDOWN_S = 0x1.8p+1%float
  ∧ 0.35%float = 0x1.6666666666666p-2%float.
Proof. repeat split. Qed.

(** ** Comparisons of floats *)

Lemma SFcompare_antisym (a b : spec_float) :
  SFcompare b a = CompOpp <$> SFcompare a b.
Proof.
  destruct a as [[]|[]| |[] ma ea], b as [[]|[]| |[] mb eb]; simpl; try reflexivity.
  all: rewrite (Z.compare_antisym ea eb); destruct (ea ?= eb)%Z; simpl; try reflexivity.
  all: rewrite (Pos.compare_cont_antisym ma mb Eq); simpl.
  all: rewrite ?CompOpp_involutive; reflexivity.
Qed.

Lemma ltb_leb_false (a b : float) : (a <? b)%float = true → (b <=? a)%float = false.
Proof.
  rewrite FloatAxioms.ltb_spec, FloatAxioms.leb_spec. unfold SFltb, SFleb.
  rewrite (SFcompare_antisym (Prim2SF a) (Prim2SF b)).
  destruct (SFcompare (Prim2SF a) (Prim2SF b)) as [[]|]; simpl; congruence.
Qed.

(** ** Rounding, signs and underflow in binary64 *)

Lemma digits2_pos_size p : digits2_pos p = Pos.size p.
Proof. induction p; simpl; congruence. Qed.

Lemma Zdigits2_log2 m : (0 < m)%Z → Zdigits2 m = (Z.log2 m + 1)%Z.
Proof.
  destruct m as [|p|p]; try lia. intros _. simpl.
  rewrite digits2_pos_size. destruct p; simpl; lia.
Qed.

Lemma shr_1_m mrs : (0 ≤ shr_m mrs)%Z → shr_m (shr_1 mrs) = (shr_m mrs / 2)%Z.
Proof.
  destruct mrs as [m r s]. simpl. intros Hm.
  destruct m as [|[p|p|]|p]; cbn [shr_m]; try lia; try reflexivity.
  - rewrite Pos2Z.inj_xI. apply (Z.div_unique _ _ _ 1); lia.
  - rewrite Pos2Z.inj_xO. apply (Z.div_unique _ _ _ 0); lia.
Qed.

Lemma pow2_double p : (2 ^ Zpos p~0 = 2 ^ Zpos p * 2 ^ Zpos p)%Z.
Proof. rewrite <- Z.pow_add_r by lia. f_equal. lia. Qed.

Lemma pow2_double_succ p : (2 ^ Zpos p~1 = 2 * (2 ^ Zpos p * 2 ^ Zpos p))%Z.
Proof.
  rewrite <- Z.pow_add_r by lia. rewrite <- (Z.pow_succ_r 2) by lia. f_equal. lia.
Qed.

Lemma iter_shr_1_m p mrs :
  (0 ≤ shr_m mrs)%Z →
  shr_m (SpecFloat.iter_pos shr_1 p mrs) = (shr_m mrs / 2 ^ Zpos p)%Z.
Proof.
  revert mrs. induction p as [p IH|p IH|]; intros mrs Hm; cbn [SpecFloat.iter_pos].
  - assert (H1 : (0 ≤ shr_m (shr_1 mrs))%Z) by (rewrite shr_1_m by lia; apply Z.div_pos; lia).
    assert (H2 : (0 ≤ shr_m (SpecFloat.iter_pos shr_1 p (shr_1 mrs)))%Z)
      by (rewrite IH by lia; apply Z.div_pos; lia).
    rewrite IH, IH, shr_1_m by lia.
    rewrite !Z.div_div by lia. rewrite pow2_double_succ. reflexivity.
  - assert (H2 : (0 ≤ shr_m (SpecFloat.iter_pos shr_1 p mrs))%Z)
      by (rewrite IH by lia; apply Z.div_pos; lia).
    rewrite IH, IH by lia. rewrite Z.div_div by lia. rewrite pow2_double. reflexivity.
  - rewrite shr_1_m by lia. rewrite Z.pow_1_r. reflexivity.
Qed.

Lemma shr_m_of_loc m l : shr_m (shr_record_of_loc m l) = m.
Proof. destruct l as [|[]]; reflexivity. Qed.

Lemma shr_fexp_pos m e l :
  (0 < m)%Z → (emin ≤ e)%Z →
  (0 < shr_m (shr_fexp prec emax m e l).1)%Z ∧ (emin ≤ (shr_fexp prec emax m e l).2)%Z.
Proof.
  intros Hm He. unfold shr_fexp, shr.
  rewrite Zdigits2_log2 by exact Hm.
  pose proof (Z.log2_nonneg m) as Hlog.
  unfold fexp, SpecFloat.emin, prec, emax in *.
  destruct (Z.max (Z.log2 m + 1 + e - 53) (3 - 1024 - 53) - e)%Z as [|p|p] eqn:Hn;
    cbn [fst snd]; rewrite ?shr_m_of_loc; try lia.
  rewrite iter_shr_1_m by (rewrite shr_m_of_loc; lia).
  rewrite shr_m_of_loc. split; [|lia].
  apply Z.div_str_pos. split; [apply Z.pow_pos_nonneg; lia|].
  apply Z.log2_le_pow2; lia.
Qed.

Lemma round_nearest_even_ge m l : (m ≤ round_nearest_even m l)%Z.
Proof. destruct l as [|[]]; simpl; try lia. destruct (Z.even m); lia. Qed.

(** Rounding a positive mantissa whose exponent is not below [emin] never
    gives a zero: there is no underflow to zero above the smallest
    subnormal. *)
Lemma binary_round_aux_pos s m e l :
  (0 < m)%Z → (emin ≤ e)%Z → SF_signed s (binary_round_aux prec emax s m e l).
Proof.
  intros Hm He. unfold binary_round_aux.
  destruct (shr_fexp_pos m e l Hm He) as [Hm1 He1].
  destruct (shr_fexp prec emax m e l) as [mrs' e'] eqn:H1. cbn [fst snd] in *.
  pose proof (round_nearest_even_ge (shr_m mrs') (loc_of_shr_record mrs')) as Hr.
  set (m1 := round_nearest_even (shr_m mrs') (loc_of_shr_record mrs')) in *.
  destruct (shr_fexp_pos m1 e' loc_Exact ltac:(lia) He1) as [Hm2 He2].
  destruct (shr_fexp prec emax m1 e' loc_Exact) as [mrs'' e''].
  cbn [fst snd] in *.
  destruct (shr_m mrs'') as [|p|p]; try lia.
  destruct (e'' <=? emax - prec)%Z; reflexivity.
Qed.

(** Whatever is rounded, the result carries the given sign or is NaN. *)
Lemma binary_round_aux_sign s m e l : sign_or_nan s (binary_round_aux prec emax s m e l).
Proof.
  unfold binary_round_aux.
  destruct (shr_fexp prec emax m e l) as [mrs' e'].
  destruct (shr_fexp _ _ _ e' loc_Exact) as [mrs'' e''].
  destruct (shr_m mrs''); simpl; try reflexivity.
  destruct (_ <=? _)%Z; reflexivity.
Qed.

Lemma binary_round_pos s p e :
  (emin ≤ e)%Z → SF_signed s (binary_round prec emax s p e).
Proof.
  intros He. unfold binary_round, shl_align.
  set (t := fexp prec emax (Zpos (digits2_pos p) + e)).
  assert (Ht : (emin ≤ t)%Z) by (unfold t, fexp; lia).
  destruct (t - e)%Z; apply binary_round_aux_pos; lia.
Qed.

Lemma binary_normalize_signed m e :
  (m ≠ 0)%Z → (emin ≤ e)%Z →
  SF_signed (m <? 0)%Z (binary_normalize prec emax m e false).
Proof.
  intros Hm He. destruct m as [|p|p]; [congruence| |]; apply binary_round_pos, He.
Qed.

Lemma bounded_inv m e :
  bounded prec emax m e = true →
  (emin ≤ e)%Z ∧ (Zpos m < 2 ^ 53)%Z ∧ ((emin < e)%Z → (2 ^ 52 ≤ Zpos m)%Z).
Proof.
  unfold bounded, canonical_mantissa. intros [Hc _]%andb_true_iff.
  apply Z.eqb_eq in Hc.
  change (Zpos (digits2_pos m)) with (Zdigits2 (Zpos m)) in Hc.
  rewrite Zdigits2_log2 in Hc by lia.
  unfold fexp, SpecFloat.emin, prec, emax in *.
  split; [lia|]. split.
  - apply Z.log2_lt_pow2; lia.
  - intros He. apply Z.log2_le_pow2; lia.
Qed.

Lemma shl_align_value m e ez :
  (ez ≤ e)%Z → Zpos (shl_align m e ez).1 = (Zpos m * 2 ^ (e - ez))%Z.
Proof.
  intros Hle. unfold shl_align.
  destruct (ez - e)%Z as [|d|d] eqn:Hd; cbn [fst]; try lia.
  - replace (e - ez)%Z with 0%Z by lia. lia.
  - change (Pos.iter xO m d) with (shift_pos d m).
    rewrite shift_pos_correct, Z.pow_pos_fold.
    replace (e - ez)%Z with (Zpos d) by lia. lia.
Qed.

(** Of two valid floats, the one with the smaller exponent has the smaller
    aligned mantissa. *)
Lemma aligned_lt m1 e1 m2 e2 :
  bounded prec emax m1 e1 = true → bounded prec emax m2 e2 = true →
  (e1 < e2)%Z →
  (Zpos (shl_align m1 e1 (Z.min e1 e2)).1 < Zpos (shl_align m2 e2 (Z.min e1 e2)).1)%Z.
Proof.
  intros (He1 & Hm1 & _)%bounded_inv (_ & _ & Hm2)%bounded_inv Hlt.
  rewrite !shl_align_value by lia.
  rewrite Z.min_l by lia. rewrite Z.sub_diag, Z.mul_1_r.
  specialize (Hm2 ltac:(lia)).
  assert (2 ^ 1 ≤ 2 ^ (e2 - e1))%Z by (apply Z.pow_le_mono_r; lia).
  change (2 ^ 53)%Z with (2 ^ 52 * 2 ^ 1)%Z in Hm1.
  nia.
Qed.

Lemma aligned_diff_pos sx mx ex sy my ey :
  bounded prec emax mx ex = true → bounded prec emax my ey = true →
  SFcompare (S754_finite sy my ey) (S754_finite sx mx ex) = Some Lt →
  (0 < aligned_diff sx mx ex sy my ey)%Z.
Proof.
  intros Hx Hy Hc. unfold aligned_diff. simpl in Hc.
  destruct sy, sx; simpl; try discriminate; try lia.
  - destruct (ey ?= ex)%Z eqn:He; try discriminate.
    + apply Z.compare_eq in He. subst ey.
      assert (Hm : (mx < my)%positive).
      { change (Pos.compare_cont Eq my mx) with (my ?= mx)%positive in Hc.
        destruct (my ?= mx)%positive eqn:Hm; try discriminate.
        apply Pos.compare_gt_iff in Hm. lia. }
      rewrite !shl_align_value by lia. rewrite Z.min_id, Z.sub_diag. lia.
    + apply Z.compare_gt_iff in He.
      pose proof (aligned_lt mx ex my ey Hx Hy He). lia.
  - destruct (ey ?= ex)%Z eqn:He; try discriminate.
    + apply Z.compare_eq in He. subst ey.
      assert (Hm : (my < mx)%positive) by (injection Hc as Hc; exact Hc).
      rewrite !shl_align_value by lia. rewrite Z.min_id, Z.sub_diag. lia.
    + apply Z.compare_lt_iff in He.
      pose proof (aligned_lt my ey mx ex Hy Hx He) as H.
      rewrite (Z.min_comm ey ex) in H. lia.
Qed.

Lemma SFsub_finite sx mx ex sy my ey :
  SFsub prec emax (S754_finite sx mx ex) (S754_finite sy my ey)
  = binary_normalize prec emax (aligned_diff sx mx ex sy my ey) (Z.min ex ey) false.
Proof. reflexivity. Qed.

(** [x - y] for [y < x] is positive: not negative, not zero, not NaN. *)
Lemma SFsub_gt x y :
  valid_binary x = true → valid_binary y = true →
  SFcompare y x = Some Lt → SF_signed false (SFsub prec emax x y).
Proof.
  intros Hx Hy Hc.
  destruct x as [sx|sx| |sx mx ex], y as [sy|sy| |sy my ey].
  16: { rewrite SFsub_finite.
        pose proof (aligned_diff_pos _ _ _ _ _ _ Hx Hy Hc) as Hd.
        replace false with (aligned_diff sx mx ex sy my ey <? 0)%Z at 1 by lia.
        apply binary_normalize_signed; [lia|].
        apply bounded_inv in Hx, Hy. lia. }
  all: try destruct sx; try destruct sy; simpl in Hc; try discriminate;
    simpl; reflexivity.
Qed.

(** [x - y] for [x < y] is negative. *)
Lemma SFsub_lt x y :
  valid_binary x = true → valid_binary y = true →
  SFcompare x y = Some Lt → SF_signed true (SFsub prec emax x y).
Proof.
  intros Hx Hy Hc.
  destruct x as [sx|sx| |sx mx ex], y as [sy|sy| |sy my ey].
  16: { rewrite SFsub_finite.
        pose proof (aligned_diff_pos _ _ _ _ _ _ Hy Hx Hc) as Hd.
        assert (Hopp : aligned_diff sx mx ex sy my ey = (- aligned_diff sy my ey sx mx ex)%Z).
        { unfold aligned_diff. rewrite (Z.min_comm ey ex). lia. }
        replace true with (aligned_diff sx mx ex sy my ey <? 0)%Z at 1 by lia.
        apply binary_normalize_signed; [lia|].
        apply bounded_inv in Hx, Hy. lia. }
  all: try destruct sx; try destruct sy; simpl in Hc; try discriminate;
    simpl; reflexivity.
Qed.

(** Adding a positive finite float to a float that is [>= 0] gives a
    positive float. *)
Lemma SFadd_pos v m e :
  valid_binary v = true → bounded prec emax m e = true →
  SFleb (S754_zero false) v = true →
  SF_signed false (SFadd prec emax v (S754_finite false m e)).
Proof.
  intros Hv Hb Hle.
  destruct v as [sv|sv| |sv mv ev]; try destruct sv; try discriminate; try reflexivity.
  unfold SFadd. cbn [cond_Zopp].
  change (Zpos ?a + Zpos ?b)%Z with (Zpos (a + b)). cbn [binary_normalize].
  apply binary_round_pos. apply bounded_inv in Hv, Hb. lia.
Qed.

Lemma sqrtrem_pos n : (0 < n)%Z → (0 < (Z.sqrtrem n).1)%Z.
Proof.
  intros Hn. pose proof (Z.sqrtrem_spec n ltac:(lia)) as H.
  destruct (Z.sqrtrem n) as [q r]. cbn [fst]. nia.
Qed.

(** The square root of a positive float is a positive float. *)
Lemma SFsqrt_pos v :
  valid_binary v = true → SF_signed false v → SF_signed false (SFsqrt prec emax v).
Proof.
  intros Hv Hs. destruct v as [sv|sv| |sv m e]; simpl in Hs; try contradiction; subst sv.
  - reflexivity.
  - cbn [SFsqrt]. unfold SFsqrt_core_binary.
    apply bounded_inv in Hv as (He & _).
    set (e' := Z.min _ _).
    assert (He' : (emin ≤ e' ∧ 2 * e' ≤ e)%Z).
    { unfold e', fexp. rewrite Z.div2_div.
      unfold SpecFloat.emin, prec, emax in *.
      pose proof (Z.div_mod e 2 ltac:(lia)). pose proof (Z.mod_pos_bound e 2 ltac:(lia)).
      lia. }
    set (m' := match (e - 2 * e')%Z with Zpos _ => _ | 0%Z => _ | Zneg _ => _ end).
    assert (Hm' : (0 < m')%Z).
    { unfold m'. destruct (e - 2 * e')%Z as [|p|p] eqn:Hs; try lia.
      rewrite Z.shiftl_mul_pow2 by lia.
      assert (0 < 2 ^ Zpos p)%Z by (apply Z.pow_pos_nonneg; lia). nia. }
    pose proof (sqrtrem_pos m' Hm') as Hq.
    destruct (Z.sqrtrem m') as [q r]. cbn [fst] in Hq.
    apply binary_round_aux_pos; lia.
Qed.

(** A quotient by a positive float has the sign of the numerator, or is NaN
    (infinity over infinity). *)
Lemma SFdiv_sign s n d :
  SF_signed s n → SF_signed false d → sign_or_nan s (SFdiv prec emax n d).
Proof.
  intros Hn Hd.
  destruct n as [sn|sn| |sn mn en], d as [sd|sd| |sd md ed];
    simpl in Hn, Hd; try contradiction; subst.
  - exact I.
  - simpl. apply xorb_false_r.
  - simpl. apply xorb_false_r.
  - cbn [SFdiv]. destruct (SFdiv_core_binary _ _ _ _ _ _) as [[mz ez] lz].
    rewrite xorb_false_r. apply binary_round_aux_sign.
Qed.

Lemma Prim2SF_EPS : Prim2SF EPS = S754_finite false 4835703278458517 (-82).
Proof. vm_compute. reflexivity. Qed.

Lemma Prim2SF_zero : Prim2SF 0 = S754_zero false.
Proof. vm_compute. reflexivity. Qed.

Lemma positive_float_cmp x :
  positive_float x → (x <? 0)%float = false ∧ (x =? 0)%float = false.
Proof.
  unfold positive_float. rewrite FloatAxioms.ltb_spec, FloatAxioms.eqb_spec, Prim2SF_zero.
  destruct (Prim2SF x) as [s|s| |s m e]; simpl; try contradiction; intros ->; split; reflexivity.
Qed.

Lemma add_EPS_positive var : (0 <=? var)%float = true → positive_float (var + EPS).
Proof.
  intros Hle. unfold positive_float. rewrite add_spec, Prim2SF_EPS.
  apply SFadd_pos.
  - apply Prim2SF_valid.
  - vm_compute. reflexivity.
  - rewrite FloatAxioms.leb_spec, Prim2SF_zero in Hle. exact Hle.
Qed.

Lemma sqrt_positive y : positive_float y → positive_float (sqrt y).
Proof.
  unfold positive_float. rewrite sqrt_spec. apply SFsqrt_pos, Prim2SF_valid.
Qed.

Lemma sub_positive x y : (y <? x)%float = true → positive_float (x - y).
Proof.
  rewrite FloatAxioms.ltb_spec. unfold SFltb, positive_float. rewrite sub_spec. intros Hc.
  apply SFsub_gt; try apply Prim2SF_valid.
  destruct (SFcompare (Prim2SF y) (Prim2SF x)) as [[]|]; congruence.
Qed.

Lemma sub_negative x y : (x <? y)%float = true → negative_float (x - y).
Proof.
  rewrite FloatAxioms.ltb_spec. unfold SFltb, negative_float. rewrite sub_spec. intros Hc.
  apply SFsub_lt; try apply Prim2SF_valid.
  destruct (SFcompare (Prim2SF x) (Prim2SF y)) as [[]|]; congruence.
Qed.

Lemma div_sign s n d :
  SF_signed s (Prim2SF n) → positive_float d → sign_or_nan s (Prim2SF (n / d)).
Proof. rewrite div_spec. apply SFdiv_sign. Qed.

Lemma sign_or_nan_false z : sign_or_nan false (Prim2SF z) → (z <? 0)%float = false.
Proof.
  rewrite FloatAxioms.ltb_spec, Prim2SF_zero.
  destruct (Prim2SF z) as [s|s| |s m e]; simpl; try intros ->; reflexivity.
Qed.

Lemma sign_or_nan_true z : sign_or_nan true (Prim2SF z) → (0 <? z)%float = false.
Proof.
  rewrite FloatAxioms.ltb_spec, Prim2SF_zero.
  destruct (Prim2SF z) as [s|s| |s m e]; simpl; try intros ->; reflexivity.
Qed.

(** [x - x] is [+0.0] for a finite [x] and NaN for an infinity or a NaN. *)
Lemma SFsub_diag v :
  SFsub prec emax v v
  = match v with
    | S754_zero _ | S754_finite _ _ _ => S754_zero false
    | S754_infinity _ | S754_nan => S754_nan
    end.
Proof.
  destruct v as [[]|[]| |s m e]; try reflexivity.
  rewrite SFsub_finite. unfold aligned_diff. rewrite Z.sub_diag. reflexivity.
Qed.

Lemma is_finite_SF x :
  is_finite x = match Prim2SF x with
                | S754_zero _ | S754_finite _ _ _ => true
                | S754_infinity _ | S754_nan => false
                end.
Proof.
  unfold is_finite, is_nan, is_infinity.
  rewrite !FloatAxioms.eqb_spec, abs_spec.
  replace (Prim2SF infinity) with (S754_infinity false) by (vm_compute; reflexivity).
  destruct (Prim2SF x) as [[]|[]| |[] m e]; try reflexivity.
  all: unfold SFeqb; simpl; rewrite Z.compare_refl;
    change (Pos.compare_cont Eq m m) with (m ?= m)%positive;
    rewrite Pos.compare_refl; reflexivity.
Qed.

Lemma sub_diag x : (x - x)%float = if is_finite x then 0%float else nan.
Proof.
  rewrite <- (SF2Prim_Prim2SF (x - x)), sub_spec.
  unfold SF64sub. rewrite SFsub_diag, is_finite_SF.
  destruct (Prim2SF x); reflexivity.
Qed.

(** ** Severity classifier *)

Lemma alert_condition_spec z rl :
  alert_condition z rl ↔ (ALERT_Z <=? abs z)%float || (RUNLEN_ALERT <=? rl)%nat = true.
Proof.
  unfold alert_condition. rewrite orb_true_iff, Nat.leb_le. reflexivity.
Qed.

Section Classifier.
Variable float_of_str : string → option float.
Variable round : float → Z → float.

(** C1. For every sample the classifier yields exactly one of none, WARN and
    ALERT: ALERT exactly when [|z| >= alertZ] or [runLength >= runLenAlert]
    (so crossing [alertZ] gives ALERT whatever the run length, and so does a
    long enough run whatever [z]); otherwise WARN exactly when
    [|z| >= warnZ]; otherwise none, and then the sample is not processed
    further: nothing is printed and the state is left as it is. *)
Theorem severity_classifier (z : float) (rl : nat) :
  (decide_severity z rl = Some ALERT ↔ alert_condition z rl)
  ∧ (decide_severity z rl = Some WARN ↔ ¬ alert_condition z rl ∧ warn_condition z)
  ∧ (decide_severity z rl = None ↔ ¬ alert_condition z rl ∧ ¬ warn_condition z)
  ∧ ((ALERT_Z <=? abs z)%float = true → ∀ rl', decide_severity z rl' = Some ALERT)
  ∧ (RUNLEN_ALERT ≤ rl → ∀ z', decide_severity z' rl = Some ALERT)
  ∧ (decide_severity z rl = None →
     ∀ st ts t_sec s x now, report round st ts t_sec s x z rl now = (st, [])).
Proof.
  unfold warn_condition. rewrite alert_condition_spec.
  repeat split.
  - unfold decide_severity. repeat case_match; congruence.
  - unfold decide_severity. intros ->. reflexivity.
  - unfold decide_severity in *. repeat case_match; congruence.
  - unfold decide_severity in *. repeat case_match; congruence.
  - intros [Ha Hw]. unfold decide_severity.
    destruct (_ || _); [congruence|]. rewrite Hw. reflexivity.
  - unfold decide_severity in *. repeat case_match; congruence.
  - unfold decide_severity in *. repeat case_match; congruence.
  - intros [Ha Hw]. unfold decide_severity.
    destruct (_ || _); [congruence|]. destruct (_ <=? _)%float; congruence.
  - intros Hz rl'. unfold decide_severity. rewrite Hz. reflexivity.
  - intros Hrl z'. unfold decide_severity.
    apply Nat.leb_le in Hrl. rewrite Hrl, orb_true_r. reflexivity.
  - intros Hnone st ts t_sec s x now. unfold report. rewrite Hnone. reflexivity.
Qed.
End Classifier.

Lemma severity_classifier_witness :
  decide_severity 5 0 = Some ALERT
  ∧ decide_severity 3.5 6 = Some ALERT
  ∧ decide_severity 3.5 2 = Some WARN
  ∧ decide_severity 1 2 = None.
Proof.
  destruct (severity_classifier (λ x _, x) 5 0) as (_ & _ & _ & Hz & _).
  destruct (severity_classifier (λ x _, x) 3.5 6) as (_ & _ & _ & _ & Hrl & _).
  destruct (severity_classifier (λ x _, x) 3.5 2) as (_ & Hw & _).
  destruct (severity_classifier (λ x _, x) 1 2) as (_ & _ & Hn & _).
  split; [apply Hz; reflexivity|].
  split; [apply Hrl; unfold RUNLEN_ALERT; lia|].
  split.
  - apply Hw. split; [|reflexivity].
    intros [H|H]; [discriminate H|unfold RUNLEN_ALERT in H; lia].
  - apply Hn. split.
    + intros [H|H]; [discriminate H|unfold RUNLEN_ALERT in H; lia].
    + intros H; discriminate H.
Defined.

(** ** Statistics tracker *)

Lemma EWStats_feed_snoc self xs x :
  EWStats.feed self (xs ++ [x]) = (EWStats.update (EWStats.feed self xs) x).1.
Proof. unfold EWStats.feed. rewrite foldl_app. reflexivity. Qed.

Lemma EWStats_update_alpha self x :
  EWStats.alpha (EWStats.update self x).1 = EWStats.alpha self.
Proof. unfold EWStats.update. destruct (EWStats.mean self); reflexivity. Qed.

Lemma EWStats_feed_alpha self xs :
  EWStats.alpha (EWStats.feed self xs) = EWStats.alpha self.
Proof.
  induction xs as [|x xs IH] using rev_ind; [reflexivity|].
  rewrite EWStats_feed_snoc, EWStats_update_alpha. exact IH.
Qed.

(** Mean and variance are both unset or both set, and set for good by the
    first call. *)
Lemma EWStats_update_set self x :
  ∃ m v, EWStats.mean (EWStats.update self x).1 = Some m
         ∧ EWStats.var (EWStats.update self x).1 = Some v.
Proof. unfold EWStats.update. destruct (EWStats.mean self); simpl; eauto. Qed.

Lemma EWStats_feed_set a x0 xs :
  ∃ m v, EWStats.mean (EWStats.feed (EWStats.init a) (x0 :: xs)) = Some m
         ∧ EWStats.var (EWStats.feed (EWStats.init a) (x0 :: xs)) = Some v.
Proof.
  destruct xs as [|x xs _] using rev_ind.
  - simpl. eauto.
  - rewrite app_comm_cons, EWStats_feed_snoc. apply EWStats_update_set.
Qed.

(** C2. The first call of [update] on a tracker stores and returns
    [mean = value] and [variance = 0]; every later call returns
    [alpha*value + (1-alpha)*mean] and
    [alpha*(value - mean)^2 + (1-alpha)*variance], where [mean] and
    [variance] are the ones stored before the call, so that the residual is
    taken against the mean in force before the update. *)
Theorem ewstats_update (a : float) :
  (∀ x, EWStats.update (EWStats.init a) x
        = (EWStats.mk a (Some x) (Some 0%float), (x, 0%float)))
  ∧ (∀ x0 xs x,
       let self := EWStats.feed (EWStats.init a) (x0 :: xs) in
       ∃ m v,
         EWStats.mean self = Some m ∧ EWStats.var self = Some v
         ∧ let mean' := (a * x + (1 - a) * m)%float in
           let var' := (a * ((x - m) * (x - m)) + (1 - a) * v)%float in
           EWStats.update self x
           = (EWStats.mk a (Some mean') (Some var'), (mean', var'))).
Proof.
  split; [reflexivity|].
  intros x0 xs x self.
  destruct (EWStats_feed_set a x0 xs) as (m & v & Hm & Hv).
  exists m, v. fold self in Hm, Hv. repeat split; [exact Hm|exact Hv|].
  pose proof (EWStats_feed_alpha (EWStats.init a) (x0 :: xs)) as Ha.
  fold self in Ha. simpl in Ha.
  unfold EWStats.update. rewrite Hm, Hv, Ha. reflexivity.
Qed.

(** ** Run-length tracker *)

Lemma RunLength_feed_threshold self zs :
  RunLength.threshold (RunLength.feed self zs).1 = RunLength.threshold self.
Proof.
  revert self. induction zs as [|z zs IH]; intros self; [reflexivity|].
  simpl. destruct (RunLength.update self z) as [self' c] eqn:Hu.
  specialize (IH self'). destruct (RunLength.feed self' zs) as [self'' cs].
  simpl in *. rewrite IH.
  unfold RunLength.update in Hu.
  destruct (_ <=? _)%float; injection Hu as <- _; reflexivity.
Qed.

(** Over a stretch of samples that all reach the threshold, the calls return
    the count before the stretch plus 1, 2, 3, ... *)
Lemma RunLength_feed_run self zs :
  Forall (λ z, (RunLength.threshold self <=? abs z)%float = true) zs →
  RunLength.feed self zs
  = (RunLength.mk (RunLength.threshold self) (RunLength.count self + length zs),
     seq (S (RunLength.count self)) (length zs)).
Proof.
  revert self. induction zs as [|z zs IH]; intros self Hall.
  - simpl. rewrite Nat.add_0_r. destruct self; reflexivity.
  - inversion Hall as [|? ? Hz Hzs]; subst. simpl.
    unfold RunLength.update. rewrite Hz.
    rewrite IH by exact Hzs. simpl. do 2 f_equal. lia.
Qed.

(** C6. [update(z)] adds one to the count and returns it when
    [|z| >= threshold], and otherwise sets the count to 0 and returns 0.  So
    the run length is 0 on every sample with [|z| < threshold]; over a
    stretch of samples with [|z| >= threshold] that follows a sample below
    the threshold (or the start) it is 1, 2, 3, ..., one more per sample; and
    the first sample below the threshold after the stretch brings it back to
    0. *)
Theorem run_length_update (self : RunLength.t) :
  (∀ z, (RunLength.threshold self <=? abs z)%float = true →
        RunLength.update self z
        = (RunLength.mk (RunLength.threshold self) (S (RunLength.count self)),
           S (RunLength.count self)))
  ∧ (∀ z, (RunLength.threshold self <=? abs z)%float = false →
          RunLength.update self z = (RunLength.mk (RunLength.threshold self) 0, 0))
  ∧ (∀ z, (abs z <? RunLength.threshold self)%float = true →
          RunLength.update self z = (RunLength.mk (RunLength.threshold self) 0, 0))
  ∧ (∀ zs, Forall (λ z, (RunLength.threshold self <=? abs z)%float = true) zs →
           (RunLength.feed self zs).2
           = seq (S (RunLength.count self)) (length zs))
  ∧ (∀ z0 zs z1,
       (RunLength.threshold self <=? abs z0)%float = false →
       Forall (λ z, (RunLength.threshold self <=? abs z)%float = true) zs →
       (RunLength.threshold self <=? abs z1)%float = false →
       (RunLength.feed self (z0 :: zs ++ [z1])).2 = 0 :: seq 1 (length zs) ++ [0]).
Proof.
  assert (Hlow : ∀ z, (RunLength.threshold self <=? abs z)%float = false →
    RunLength.update self z = (RunLength.mk (RunLength.threshold self) 0, 0)).
  { intros z Hz. unfold RunLength.update. rewrite Hz. reflexivity. }
  split; [|split; [exact Hlow|split; [|split]]].
  - intros z Hz. unfold RunLength.update. rewrite Hz. reflexivity.
  - intros z Hz. apply Hlow, ltb_leb_false, Hz.
  - intros zs Hzs. rewrite RunLength_feed_run by exact Hzs. reflexivity.
  - intros z0 zs z1 Hz0 Hzs Hz1.
    cbn [RunLength.feed]. rewrite (Hlow z0 Hz0).
    set (self0 := RunLength.mk (RunLength.threshold self) 0).
    assert (Hsplit : ∀ o l1 l2, (RunLength.feed o (l1 ++ l2)).2
      = (RunLength.feed o l1).2 ++ (RunLength.feed (RunLength.feed o l1).1 l2).2).
    { intros o l1. revert o. induction l1 as [|y l1 IH]; intros o l2.
      - reflexivity.
      - simpl. destruct (RunLength.update o y) as [o' c].
        specialize (IH o' l2).
        destruct (RunLength.feed o' (l1 ++ l2)) as [o2 cs2].
        destruct (RunLength.feed o' l1) as [o1 cs1]. simpl in *.
        rewrite IH. reflexivity. }
    specialize (Hsplit self0 zs [z1]).
    destruct (RunLength.feed self0 (zs ++ [z1])) as [o cs]. simpl in Hsplit.
    simpl. f_equal. rewrite Hsplit.
    rewrite (RunLength_feed_run self0 zs Hzs). simpl.
    unfold RunLength.update. simpl. rewrite Hz1. reflexivity.
Qed.

Lemma run_length_update_witness :
  (RunLength.feed (RunLength.init WARN_Z) [1; 3.5; -4; 5; 0.5]%float).2
  = [0; 1; 2; 3; 0].
Proof.
  destruct (run_length_update (RunLength.init WARN_Z)) as (_ & _ & _ & _ & H).
  apply (H 1%float [3.5; -4; 5]%float 0.5%float).
  - reflexivity.
  - repeat constructor.
  - reflexivity.
Defined.

(** ** Z-score evaluator *)

Lemma zscore_defined (x : float) (mean var : option float) :
  (0 <=? default 0 var)%float = true →
  zscore x mean var
  = Ok ((x - default 0 mean) / sqrt (default 0 var + EPS))%float.
Proof.
  intros Hv. unfold zscore, math_sqrt, truediv.
  pose proof (add_EPS_positive _ Hv) as Hp.
  destruct (positive_float_cmp _ Hp) as [-> _]. cbn [mbind res_bind].
  destruct (positive_float_cmp _ (sqrt_positive _ Hp)) as [_ ->]. reflexivity.
Qed.

(** C7 (as amended). [zscore(value, mean, variance)] is
    [(value - mean) / sqrt(variance + EPS)] and raises nothing for every
    variance [>= 0], the variance 0 of the first observation and an infinite
    variance included: the divisor is a positive float.  The deviation
    [value - mean] is positive when [value > mean] and negative when
    [value < mean], and the z-score never has the opposite sign: it is not
    negative when [value > mean] and not positive when [value < mean].  (It
    can be zero, when the quotient underflows or the variance is infinite,
    and NaN, when deviation and variance are both infinite.) *)
Theorem zscore_defined_and_signed (x : float) (mean var : option float) :
  (0 <=? default 0 var)%float = true →
  ∃ z, zscore x mean var = Ok z
    ∧ z = ((x - default 0 mean) / sqrt (default 0 var + EPS))%float
    ∧ positive_float (sqrt (default 0 var + EPS))%float
    ∧ ((default 0 mean <? x)%float = true →
       positive_float (x - default 0 mean)%float ∧ (z <? 0)%float = false)
    ∧ ((x <? default 0 mean)%float = true →
       negative_float (x - default 0 mean)%float ∧ (0 <? z)%float = false).
Proof.
  intros Hv. eexists. split; [apply zscore_defined, Hv|]. split; [reflexivity|].
  pose proof (sqrt_positive _ (add_EPS_positive _ Hv)) as Hden.
  split; [exact Hden|]. split; intros Hlt.
  - pose proof (sub_positive _ _ Hlt) as Hnum. split; [exact Hnum|].
    apply sign_or_nan_false, div_sign; assumption.
  - pose proof (sub_negative _ _ Hlt) as Hnum. split; [exact Hnum|].
    apply sign_or_nan_true, div_sign; assumption.
Qed.

Lemma zscore_defined_and_signed_witness :
  ∃ z, zscore 5 (Some 2%float) (Some 4%float) = Ok z ∧ (z <? 0)%float = false.
Proof.
  destruct (zscore_defined_and_signed 5 (Some 2%float) (Some 4%float))
    as (z & Hz & _ & _ & Hgt & _); [reflexivity|].
  exists z. split; [exact Hz|]. apply Hgt. reflexivity.
Defined.

(** The sign claim as it was stated fails where the quotient underflows: the
    smallest positive double against mean 0 and variance 4 gives the z-score
    [0.0], which is not [> 0]. *)
Lemma zscore_sign_counterexample :
  (0 <=? 4)%float = true
  ∧ (0 <? 5e-324)%float = true
  ∧ zscore 5e-324 (Some 0%float) (Some 4%float) = Ok 0%float
  ∧ (0 <? 0)%float = false.
Proof. repeat split. Qed.

(** The same through the tracker, as [main] calls them: after a first sample
    0.0 the sample 1e200 makes the variance infinite and the z-score 0.0,
    though the value is above the updated mean. *)
Example zscore_sign_spike :
  let '(_, (mean, var)) :=
    EWStats.update (EWStats.feed (EWStats.init ALPHA) [0%float]) 1e200 in
  (mean <? 1e200)%float = true
  ∧ var = infinity
  ∧ zscore 1e200 (Some mean) (Some var) = Ok 0%float.
Proof. vm_compute. repeat split. Qed.

(** On the first sample of a signal the tracker returns the sample as mean
    and 0 as variance; the z-score is then 0 for a finite sample and NaN for
    an infinite or NaN one. *)
Lemma zscore_first (x : float) :
  zscore x (Some x) (Some 0%float) = Ok (if is_finite x then 0%float else nan).
Proof.
  rewrite zscore_defined by reflexivity.
  change (default 0%float (Some x)) with x.
  rewrite sub_diag. destruct (is_finite x); reflexivity.
Qed.

(** ** Emission gate and event emitter *)

Lemma safety_critical_eqb s :
  String.eqb s "extruder_flow_mm3_s" || String.eqb s "nozzle_temp_c" = true
  ↔ safety_critical s.
Proof. unfold safety_critical. rewrite orb_true_iff, !String.eqb_eq. reflexivity. Qed.

Lemma count_events_cons_event e out : count_events (Event e :: out) = S (count_events out).
Proof. reflexivity. Qed.

Lemma count_events_cons_control c out : count_events (Control c :: out) = count_events out.
Proof. reflexivity. Qed.

Section Emission.
Variable round : float → Z → float.

Lemma emit_closed st ts t_sec s x z sev now :
  gate_open st (dedup_key sev s z) now = false →
  emit round st ts t_sec s x z sev now = (st, []).
Proof.
  unfold gate_open, emit. intros H.
  destruct (short_diagnosis _ _ _ _). rewrite H. reflexivity.
Qed.

Lemma emit_open st ts t_sec s x z sev now :
  gate_open st (dedup_key sev s z) now = true →
  let d := short_diagnosis s z x {[ "recent" := default [] (recents st !! s) ]} in
  let ev := make_event round ts t_sec sev s x z d.1 d.2 in
  emit round st ts t_sec s x z sev now
  = ({| stats := stats st; runlen := runlen st; recents := recents st;
        last_emit := <[dedup_key sev s z := (d.1, now)]> (last_emit st) |},
     Event ev :: (if decide (calls_for_control ev)
                  then [Control (make_control ts t_sec s)] else [])).
Proof.
  unfold gate_open, emit. intros H.
  destruct (short_diagnosis _ _ _ _) as [diag actions]. rewrite H. cbn [fst snd].
  unfold calls_for_control. cbn [ev_severity ev_signal make_event].
  destruct sev.
  - case_decide as Hc; [destruct Hc; discriminate|reflexivity].
  - destruct (String.eqb s _ || String.eqb s _) eqn:Hs.
    + apply safety_critical_eqb in Hs. case_decide as Hc; [reflexivity|tauto].
    + case_decide as Hc; [|reflexivity].
      destruct Hc as [_ Hc]. apply safety_critical_eqb in Hc. congruence.
Qed.

(** C3 (as amended). A qualifying sample is emitted if and only if the
    wall-clock time since the last emission under its key (severity, signal,
    direction) is at least the cooldown of 3.0 s, a key that has not emitted
    yet counting as last emitted at time 0.0; an emission records the time
    of emission under the key and leaves the other keys alone, a suppressed
    sample changes nothing.  Hence of three qualifying samples of one key, the
    first passing the gate, the second less than the cooldown after the
    first and the third at least the cooldown after the first, the first and
    the third are emitted, one Event each, and the second is not. *)
Theorem emission_gate :
  (∀ st ts t_sec s x z sev now,
     let key := dedup_key sev s z in
     let r := emit round st ts t_sec s x z sev now in
     (gate_open st key now = true →
        count_events r.2 = 1
        ∧ snd <$> last_emit r.1 !! key = Some now
        ∧ ∀ k, k ≠ key → last_emit r.1 !! k = last_emit st !! k)
     ∧ (gate_open st key now = false → r = (st, []))
     ∧ (count_events r.2 = 1 ↔ gate_open st key now = true))
  ∧ (∀ key sev s st1 st2 st3 ts1 ts2 ts3 t1 t2 t3 x1 x2 x3 z1 z2 z3 now1 now2 now3,
       dedup_key sev s z1 = key → dedup_key sev s z2 = key → dedup_key sev s z3 = key →
       let r1 := emit round st1 ts1 t1 s x1 z1 sev now1 in
       let r2 := emit round st2 ts2 t2 s x2 z2 sev now2 in
       let r3 := emit round st3 ts3 t3 s x3 z3 sev now3 in
       gate_open st1 key now1 = true →
       last_emit st2 !! key = last_emit r1.1 !! key →
       (DEDUP_COOLDOWN_S <=? now2 - now1)%float = false →
       last_emit st3 !! key = last_emit r2.1 !! key →
       (DEDUP_COOLDOWN_S <=? now3 - now1)%float = true →
       count_events r1.2 = 1 ∧ r2.2 = [] ∧ count_events r3.2 = 1).
Proof.
  assert (Hopen : ∀ st ts t_sec s x z sev now,
    gate_open st (dedup_key sev s z) now = true →
    let r := emit round st ts t_sec s x z sev now in
    count_events r.2 = 1
    ∧ snd <$> last_emit r.1 !! dedup_key sev s z = Some now
    ∧ ∀ k, k ≠ dedup_key sev s z → last_emit r.1 !! k = last_emit st !! k).
  { intros st ts t_sec s x z sev now Hg r. unfold r.
    rewrite (emit_open _ _ _ _ _ _ _ _ Hg). cbn [fst snd last_emit].
    split; [|split].
    - case_decide; reflexivity.
    - rewrite lookup_insert_eq. reflexivity.
    - intros k Hk. rewrite lookup_insert_ne by congruence. reflexivity. }
  split.
  - intros st ts t_sec s x z sev now key r. split; [apply Hopen|].
    split; [apply emit_closed|].
    split.
    + intros Hc. destruct (gate_open st key now) eqn:Hg; [reflexivity|].
      unfold r in Hc. rewrite (emit_closed _ _ _ _ _ _ _ _ Hg) in Hc. discriminate.
    + intros Hg. apply Hopen, Hg.
  - intros key sev s st1 st2 st3 ts1 ts2 ts3 t1 t2 t3 x1 x2 x3 z1 z2 z3 now1 now2 now3
      Hk1 Hk2 Hk3 r1 r2 r3 Hg1 H2 Hw H3 Ha.
    rewrite <- Hk1 in Hg1.
    destruct (Hopen st1 ts1 t1 s x1 z1 sev now1 Hg1) as (Hc1 & Hl1 & _).
    fold r1 in Hc1, Hl1. rewrite Hk1 in Hl1.
    assert (Hg2 : gate_open st2 (dedup_key sev s z2) now2 = false).
    { unfold gate_open. rewrite Hk2, H2, Hl1. exact Hw. }
    assert (Hr2 : r2 = (st2, [])) by (apply emit_closed, Hg2).
    assert (Hg3 : gate_open st3 (dedup_key sev s z3) now3 = true).
    { unfold gate_open. rewrite Hk3, H3, Hr2. cbn [fst]. rewrite H2, Hl1. exact Ha. }
    destruct (Hopen st3 ts3 t3 s x3 z3 sev now3 Hg3) as (Hc3 & _).
    split; [exact Hc1|]. split; [rewrite Hr2; reflexivity|exact Hc3].
Qed.

(** *** Events and their control advisories *)

Lemma paired_app (a b : list output) : paired a → paired b → paired (a ++ b).
Proof.
  remember (length a) as n eqn:Hn. revert a Hn.
  induction n as [n IH] using lt_wf_ind. intros a Hn Ha Hb.
  destruct a as [|[e|c] a]; [exact Hb| |destruct Ha].
  cbn [app paired] in *. case_decide.
  - destruct a as [|[e'|c'] a]; [destruct Ha|destruct Ha|].
    destruct Ha as [Hc Ha]. split; [exact Hc|].
    apply (IH (length a)); [simpl in Hn; lia|reflexivity|exact Ha|exact Hb].
  - apply (IH (length a)); [simpl in Hn; lia|reflexivity|exact Ha|exact Hb].
Qed.

Lemma emit_paired st ts t_sec s x z sev now :
  paired (emit round st ts t_sec s x z sev now).2.
Proof.
  destruct (gate_open st (dedup_key sev s z) now) eqn:Hg.
  - rewrite (emit_open _ _ _ _ _ _ _ _ Hg). cbn [snd paired].
    case_decide; [|exact I]. split; [|exact I]. repeat split.
  - rewrite (emit_closed _ _ _ _ _ _ _ _ Hg). exact I.
Qed.

Lemma report_paired st ts t_sec s x z rl now :
  paired (report round st ts t_sec s x z rl now).2.
Proof. unfold report. destruct (decide_severity z rl); [apply emit_paired|exact I]. Qed.

Variable float_of_str : string → option float.

Lemma watch_paired st ts t_sec sigs now s st' out :
  watch float_of_str round st ts t_sec sigs now s = Ok (st', out) → paired out.
Proof.
  unfold watch. destruct (contains sigs s) as [[]|]; cbn; try discriminate.
  - destruct (getitem sigs s) as [v|]; cbn; try discriminate.
    destruct (float_of float_of_str v) as [x|]; cbn; try discriminate.
    destruct (observe st s x) as [[[st1 z] rl]|]; cbn; try discriminate.
    intros [= H]. pose proof (report_paired st1 ts t_sec s x z rl now) as Hp.
    rewrite H in Hp. exact Hp.
  - intros [= <- <-]. exact I.
Qed.

Lemma watch_all_paired ss st ts t_sec sigs clock :
  paired (watch_all float_of_str round ss st ts t_sec sigs clock).1.
Proof.
  revert st. induction ss as [|s ss IH]; intros st; [exact I|].
  cbn [watch_all].
  destruct (watch _ _ st ts t_sec sigs (clock s) s) as [[st' out]|e] eqn:Hw; [|exact I].
  specialize (IH st').
  destruct (watch_all _ _ ss st' ts t_sec sigs clock) as [out' r]. cbn [fst] in *.
  apply paired_app; [eapply watch_paired, Hw|exact IH].
Qed.

Lemma on_line_paired st l clock : paired (on_line float_of_str round st l clock).1.
Proof.
  destruct l as [| |f|rec]; try exact I. cbn [on_line].
  destruct (get rec "ts" JNull), (get rec "t_sec" JNull), (get rec "signals" (JObj []));
    try exact I.
  apply watch_all_paired.
Qed.

Lemma run_paired st input : paired (run float_of_str round st input).1.
Proof.
  revert st. induction input as [|[l clock] input IH]; intros st; [exact I|].
  cbn [run]. pose proof (on_line_paired st l clock) as Hl.
  destruct (on_line _ _ st l clock) as [out [st'|e]]; cbn [fst] in *; [|exact Hl].
  specialize (IH st'). destruct (run _ _ st' input) as [out' r]. cbn [fst] in *.
  apply paired_app; assumption.
Qed.

(** C9. A ControlAction is emitted exactly when an Event of severity ALERT
    has just been emitted for a safety-critical signal (flow, nozzle
    temperature), right after that Event and as an output unit of its own:
    what a qualifying sample prints is nothing, or its Event alone, or its
    Event followed by the ControlAction, the latter exactly for ALERT on a
    safety-critical signal; and in the output of a whole run, however it
    ends, every ControlAction comes right after the Event that calls for it,
    never alone, never after a WARN Event and never for another signal. *)
Theorem control_accompanies_alert :
  (∀ st ts t_sec s x z sev now,
     let out := (emit round st ts t_sec s x z sev now).2 in
     out = []
     ∨ ∃ ev, ev_severity ev = sev ∧ ev_signal ev = s
         ∧ ev_ts ev = ts ∧ ev_t_sec ev = t_sec
         ∧ (calls_for_control ev ↔ sev = ALERT ∧ safety_critical s)
         ∧ out = Event ev :: (if decide (sev = ALERT ∧ safety_critical s)
                              then [Control (make_control ts t_sec s)] else []))
  ∧ (∀ input, paired (main float_of_str round input).1).
Proof.
  split; [|intros input; apply run_paired].
  intros st ts t_sec s x z sev now out. unfold out.
  destruct (gate_open st (dedup_key sev s z) now) eqn:Hg.
  - right. rewrite (emit_open _ _ _ _ _ _ _ _ Hg). cbn [snd].
    set (d := short_diagnosis s z x _).
    exists (make_event round ts t_sec sev s x z d.1 d.2).
    split; [reflexivity|]. split; [reflexivity|].
    split; [reflexivity|]. split; [reflexivity|]. split; [reflexivity|].
    reflexivity.
  - left. rewrite (emit_closed _ _ _ _ _ _ _ _ Hg). reflexivity.
Qed.

(** *** The trackers and the gate *)

(** [observe] reads and writes the trackers only. *)
Lemma observe_trackers st st' s x :
  stats st = stats st' → runlen st = runlen st' → recents st = recents st' →
  match observe st s x, observe st' s x with
  | Ok (t, z, rl), Ok (t', z', rl') =>
      stats t = stats t' ∧ runlen t = runlen t' ∧ recents t = recents t'
      ∧ z = z' ∧ rl = rl'
      ∧ last_emit t = last_emit st ∧ last_emit t' = last_emit st'
  | Raise e, Raise e' => e = e'
  | _, _ => False
  end.
Proof.
  destruct st as [a b c d], st' as [a' b' c' d']. cbn [stats runlen recents].
  intros <- <- <-. unfold observe. cbn [stats runlen recents last_emit].
  destruct (item a s) as [es|]; cbn; [|reflexivity].
  destruct (EWStats.update es x) as [es' [mean var]].
  destruct (zscore x (Some mean) (Some var)) as [z|]; cbn; [|reflexivity].
  destruct (item c s) as [dq|]; cbn; [|reflexivity].
  destruct (item b s) as [rls|]; cbn; [|reflexivity].
  destruct (RunLength.update rls z) as [rls' rl]. cbn. repeat split.
Qed.

(** The part of the loop body after the trackers (severity, diagnosis, gate,
    emission) leaves the trackers alone, and a sample that prints nothing
    leaves the whole state alone. *)
Lemma report_trackers st ts t_sec s x z rl now :
  let r := report round st ts t_sec s x z rl now in
  stats r.1 = stats st ∧ runlen r.1 = runlen st ∧ recents r.1 = recents st
  ∧ (r.2 = [] → r.1 = st).
Proof.
  unfold report. destruct (decide_severity z rl) as [sev|]; [|repeat split].
  destruct (gate_open st (dedup_key sev s z) now) eqn:Hg.
  - rewrite (emit_open _ _ _ _ _ _ _ _ Hg). cbn. repeat split. discriminate.
  - rewrite (emit_closed _ _ _ _ _ _ _ _ Hg). repeat split.
Qed.

(** C5. Deduplication bears on the output only.  The part of the loop body
    that classifies, diagnoses and passes the gate never changes mean,
    variance, run-length count or recent window, and when it prints nothing
    it changes nothing at all; so a sample leaves the trackers as [observe]
    made them whether it is emitted or suppressed: run on two clock readings
    (and two last-emission maps), the loop body ends with the same trackers,
    and where it prints nothing the last-emission map is the one it started
    from. *)
Theorem dedup_affects_output_only :
  (∀ st ts t_sec s x z rl now,
     let r := report round st ts t_sec s x z rl now in
     stats r.1 = stats st ∧ runlen r.1 = runlen st ∧ recents r.1 = recents st
     ∧ (r.2 = [] → last_emit r.1 = last_emit st))
  ∧ (∀ st st' ts t_sec sigs s now now',
       stats st = stats st' → runlen st = runlen st' → recents st = recents st' →
       match watch float_of_str round st ts t_sec sigs now s,
             watch float_of_str round st' ts t_sec sigs now' s with
       | Ok (t, out), Ok (t', out') =>
           stats t = stats t' ∧ runlen t = runlen t' ∧ recents t = recents t'
           ∧ (out = [] → last_emit t = last_emit st)
           ∧ (out' = [] → last_emit t' = last_emit st')
       | Raise e, Raise e' => e = e'
       | _, _ => False
       end).
Proof.
  split.
  - intros st ts t_sec s x z rl now r.
    destruct (report_trackers st ts t_sec s x z rl now) as (H1 & H2 & H3 & H4).
    fold r in H1, H2, H3, H4. repeat split; try assumption.
    intros Hout. rewrite (H4 Hout). reflexivity.
  - intros st st' ts t_sec sigs s now now' Hs Hr Hc. unfold watch.
    destruct (contains sigs s) as [[]|]; cbn; [| |reflexivity].
    2: { repeat split; assumption. }
    destruct (getitem sigs s) as [v|]; cbn; [|reflexivity].
    destruct (float_of float_of_str v) as [x|]; cbn; [|reflexivity].
    pose proof (observe_trackers st st' s x Hs Hr Hc) as Ho.
    destruct (observe st s x) as [[[t z] rl]|], (observe st' s x) as [[[t' z'] rl']|];
      cbn; try contradiction; [|exact Ho].
    destruct Ho as (H1 & H2 & H3 & <- & <- & H4 & H5).
    destruct (report_trackers t ts t_sec s x z rl now) as (R1 & R2 & R3 & R4).
    destruct (report_trackers t' ts t_sec s x z rl now') as (R1' & R2' & R3' & R4').
    destruct (report round t ts t_sec s x z rl now) as [u out].
    destruct (report round t' ts t_sec s x z rl now') as [u' out'].
    cbn [fst snd] in *.
    split; [congruence|]. split; [congruence|]. split; [congruence|].
    split; intros Hout.
    + rewrite (R4 Hout). exact H4.
    + rewrite (R4' Hout). exact H5.
Qed.

(** *** The first sample of a signal *)

Lemma unobserved_init s : s ∈ SIGNALS → unobserved init_state s.
Proof.
  intros Hs. unfold SIGNALS in Hs.
  repeat (apply elem_of_cons in Hs as [->|Hs]);
    [| | | |apply elem_of_nil in Hs; destruct Hs].
  all: exists (EWStats.init ALPHA), (RunLength.init WARN_Z), [];
    repeat split; vm_compute; reflexivity.
Qed.

Lemma observe_unobserved st s x :
  unobserved st s →
  ∃ st1, observe st s x = Ok (st1, if is_finite x then 0%float else nan, 0)
         ∧ last_emit st1 = last_emit st.
Proof.
  intros (es & rls & dq & Hes & Hm & Hrls & Hthr & Hdq).
  unfold observe, item. rewrite Hes, Hrls, Hdq. cbn.
  unfold EWStats.update. rewrite Hm. rewrite zscore_first. cbn.
  unfold RunLength.update. rewrite Hthr.
  destruct (is_finite x); cbn; eexists; split; reflexivity.
Qed.

Lemma report_quiet st ts t_sec s x z now :
  z = 0%float ∨ z = nan → report round st ts t_sec s x z 0 now = (st, []).
Proof. intros [-> | ->]; reflexivity. Qed.

(** Watching another signal does not touch the trackers of [s]. *)
Lemma watch_other st ts t_sec sigs now s s' st' out :
  s' ≠ s →
  watch float_of_str round st ts t_sec sigs now s' = Ok (st', out) →
  stats st' !! s = stats st !! s ∧ runlen st' !! s = runlen st !! s
  ∧ recents st' !! s = recents st !! s.
Proof.
  intros Hne. unfold watch.
  destruct (contains sigs s') as [[]|]; cbn; try discriminate.
  2: { intros [= <- <-]. repeat split. }
  destruct (getitem sigs s') as [v|]; cbn; try discriminate.
  destruct (float_of float_of_str v) as [x|]; cbn; try discriminate.
  destruct (observe st s' x) as [[[t z] rl]|] eqn:Ho; cbn; try discriminate.
  intros [= H].
  destruct (report_trackers t ts t_sec s' x z rl now) as (R1 & R2 & R3 & _).
  rewrite H in R1, R2, R3. cbn [fst] in *. rewrite R1, R2, R3.
  unfold observe in Ho.
  destruct (item (stats st) s') as [es|]; cbn in Ho; try discriminate.
  destruct (EWStats.update es x) as [es' [mean var]].
  destruct (zscore x (Some mean) (Some var)) as [z0|]; cbn in Ho; try discriminate.
  destruct (item (recents st) s') as [dq|]; cbn in Ho; try discriminate.
  destruct (item (runlen st) s') as [rls|]; cbn in Ho; try discriminate.
  destruct (RunLength.update rls z0) as [rls' rl0]. injection Ho as <- _ _.
  cbn [stats runlen recents]. rewrite !lookup_insert_ne by exact Hne. repeat split.
Qed.

Lemma watch_unobserved st ts t_sec sigs now s st' out :
  unobserved st s →
  watch float_of_str round st ts t_sec sigs now s = Ok (st', out) →
  out = [] ∧ last_emit st' = last_emit st.
Proof.
  intros Hu. unfold watch.
  destruct (contains sigs s) as [[]|]; cbn; try discriminate.
  2: { intros [= <- <-]. split; reflexivity. }
  destruct (getitem sigs s) as [v|]; cbn; try discriminate.
  destruct (float_of float_of_str v) as [x|]; cbn; try discriminate.
  destruct (observe_unobserved st s x Hu) as (st1 & -> & Hl). cbn.
  rewrite report_quiet by (destruct (is_finite x); auto).
  intros [= <- <-]. split; [reflexivity|exact Hl].
Qed.

Lemma unobserved_kept st ts t_sec sigs now s s' st' out :
  unobserved st s → s' ≠ s →
  watch float_of_str round st ts t_sec sigs now s' = Ok (st', out) →
  unobserved st' s.
Proof.
  intros (es & rls & dq & H) Hne Hw.
  destruct (watch_other _ _ _ _ _ _ _ _ _ Hne Hw) as (H1 & H2 & H3).
  exists es, rls, dq. rewrite H1, H2, H3. exact H.
Qed.

(** A record whose signals are all unobserved prints nothing. *)
Lemma watch_all_unobserved ss st ts t_sec sigs clock :
  NoDup ss → (∀ s, s ∈ ss → unobserved st s) →
  (watch_all float_of_str round ss st ts t_sec sigs clock).1 = [].
Proof.
  revert st. induction ss as [|s ss IH]; intros st Hnd Hall; [reflexivity|].
  apply NoDup_cons in Hnd as [Hs Hnd]. cbn [watch_all].
  destruct (watch _ _ st ts t_sec sigs (clock s) s) as [[st' out]|e] eqn:Hw;
    [|reflexivity].
  destruct (watch_unobserved _ _ _ _ _ _ _ _ (Hall s ltac:(left)) Hw) as [-> _].
  assert (Hall' : ∀ s', s' ∈ ss → unobserved st' s').
  { intros s' Hs'. apply (unobserved_kept st ts t_sec sigs (clock s) s' s st' []).
    - apply Hall. right. exact Hs'.
    - intros ->. contradiction.
    - exact Hw. }
  specialize (IH st' Hnd Hall').
  destruct (watch_all _ _ ss st' ts t_sec sigs clock) as [out' r].
  cbn [fst] in *. exact IH.
Qed.

(** C10 (as amended). Every monitored signal starts unobserved and stays so
    while other signals are watched.  On the first sample of a signal the
    z-score is exactly 0 when the value is finite, however large, and NaN
    when the value is an infinity or NaN; in both cases the run length is 0,
    no severity is assigned, and nothing is printed: no WARN or ALERT Event
    and no ControlAction, and the last-emission map is untouched.  In
    particular the first line of a run prints nothing, whatever it holds. *)
Theorem first_sample_is_silent :
  (∀ s, s ∈ SIGNALS → unobserved init_state s)
  ∧ (∀ st ts t_sec sigs now s s' st' out,
       unobserved st s → s' ≠ s →
       watch float_of_str round st ts t_sec sigs now s' = Ok (st', out) →
       unobserved st' s)
  ∧ (∀ st s x,
       unobserved st s →
       ∃ st1, observe st s x = Ok (st1, if is_finite x then 0%float else nan, 0)
              ∧ decide_severity (if is_finite x then 0%float else nan) 0 = None)
  ∧ (∀ st ts t_sec sigs now s st' out,
       unobserved st s →
       watch float_of_str round st ts t_sec sigs now s = Ok (st', out) →
       out = [] ∧ last_emit st' = last_emit st)
  ∧ (∀ l clock, (on_line float_of_str round init_state l clock).1 = []).
Proof.
  split; [exact unobserved_init|]. split; [|split; [|split]].
  - intros st ts t_sec sigs now s s' st' out. apply unobserved_kept.
  - intros st s x Hu. destruct (observe_unobserved st s x Hu) as (st1 & Ho & _).
    exists st1. split; [exact Ho|]. destruct (is_finite x); reflexivity.
  - intros st ts t_sec sigs now s st' out. apply watch_unobserved.
  - intros [| |f|rec] clock; try reflexivity. cbn [on_line].
    destruct (get rec "ts" JNull), (get rec "t_sec" JNull), (get rec "signals" (JObj []));
      try reflexivity.
    apply watch_all_unobserved; [|exact unobserved_init].
    unfold SIGNALS. repeat constructor; rewrite ?elem_of_cons, ?elem_of_nil;
      intros H; repeat destruct H as [H|H]; discriminate || exact H.
Qed.

End Emission.

(** ** Oscillation detector *)

Lemma filter_adjacent_all (f : float → float → bool) (l : list float) :
  (∀ i a b, l !! i = Some a → l !! S i = Some b → f a b = true) →
  List.filter (λ p, f p.1 p.2) (zip l (tail l)) = zip l (tail l).
Proof.
  induction l as [|a l IH]; intros H; [reflexivity|].
  destruct l as [|b l]; [reflexivity|].
  change (zip (a :: b :: l) (tail (a :: b :: l))) with ((a, b) :: zip (b :: l) (tail (b :: l))).
  cbn [List.filter fst snd]. rewrite (H 0 a b) by reflexivity.
  f_equal. apply IH. intros i a' b' Ha Hb. apply (H (S i)); assumption.
Qed.

Lemma sign_changes_alternating (diffs : list float) :
  alternating diffs → sign_changes diffs = length diffs - 1.
Proof.
  intros H. unfold sign_changes.
  rewrite (filter_adjacent_all (λ a b, (a * b <? 0)%float) diffs H).
  rewrite length_zip, length_tl. lia.
Qed.

Lemma length_first_differences (recent : list float) :
  length (first_differences recent) = length recent - 1.
Proof. unfold first_differences. rewrite length_zip_with, length_tl. lia. Qed.

(** For the lengths a window can have, all but one of the adjacent pairs is
    more than 0.35 of the differences. *)
Lemma threshold_crossed (n : nat) :
  19 ≤ n ≤ 79 → (float_of_nat n * 0.35 <? float_of_nat (n - 1))%float = true.
Proof.
  intros Hn.
  assert (Hall : forallb (λ n, (float_of_nat n * 0.35 <? float_of_nat (n - 1))%float)
                   (seq 19 61) = true) by (vm_compute; reflexivity).
  rewrite forallb_forall in Hall. apply Hall, in_seq. lia.
Qed.

Lemma deque_append_length (maxlen : nat) (d : list float) (x : float) :
  length (deque_append maxlen d x) = S (length d) `min` maxlen.
Proof.
  unfold deque_append. rewrite length_drop, length_app.
  change (length [x]) with 1. lia.
Qed.

Lemma alternating_check (diffs : list float) :
  forallb (λ p, (p.1 * p.2 <? 0)%float) (zip diffs (tail diffs)) = true →
  alternating diffs.
Proof.
  induction diffs as [|a l IH]; intros H i x y Hx Hy; [discriminate Hx|].
  destruct l as [|b l]; [destruct i; discriminate Hy|].
  change (zip (a :: b :: l) (tail (a :: b :: l)))
    with ((a, b) :: zip (b :: l) (tail (b :: l))) in H.
  cbn [forallb fst snd] in H. apply andb_true_iff in H as [Hab Hrest].
  destruct i as [|i].
  - injection Hx as <-. injection Hy as <-. exact Hab.
  - apply (IH Hrest i); assumption.
Qed.

Lemma observe_recents st s x st1 z rl :
  observe st s x = Ok (st1, z, rl) →
  ∃ dq, recents st !! s = Some dq
        ∧ recents st1 !! s = Some (deque_append TREND_WINDOW dq x).
Proof.
  unfold observe, item.
  destruct (stats st !! s) as [es|]; cbn; try discriminate.
  destruct (EWStats.update es x) as [es' [mean var]].
  destruct (zscore x (Some mean) (Some var)) as [z0|]; cbn; try discriminate.
  destruct (recents st !! s) as [dq|]; cbn; try discriminate.
  destruct (runlen st !! s) as [rls|]; cbn; try discriminate.
  destruct (RunLength.update rls z0) as [rls' rl0]. intros [= <- _ _].
  exists dq. split; [reflexivity|]. cbn [recents]. apply lookup_insert_eq.
Qed.

Lemma short_diagnosis_bed z value context :
  short_diagnosis "bed_temp_c" z value context
  = if oscillating (default [] (context !! "recent")) then
      ("Bed temp oscillating (PID/drafts).",
       ["Tune bed PID"; "Cover enclosure / reduce drafts"; "Allow more warm-up time"])
    else
      ("Bed temp " +:+ (if (0 <? z)%float then "high" else "low") +:+ " vs trend.",
       ["Adjust bed temp ±3 °C"; "Check enclosure / drafts / PID"]).
Proof. reflexivity. Qed.

Lemma oscillating_alternating (recent : list float) :
  20 ≤ length recent ≤ TREND_WINDOW → alternating (first_differences recent) →
  oscillating recent = true.
Proof.
  intros [Hlo Hhi] Halt. unfold oscillating.
  apply Nat.leb_le in Hlo as Hlo'. rewrite Hlo'.
  rewrite (sign_changes_alternating _ Halt), length_first_differences.
  apply threshold_crossed. unfold TREND_WINDOW in Hhi. lia.
Qed.

(** C8 (as amended). For the bed temperature signal, a recent window of at
    least 20 samples (and at most the capacity of the window) in which every
    adjacent pair of first differences is a sign change as the detector
    counts them, [diff[i] * diff[i+1] < 0], gets the oscillation message and
    not the high/low message; a window of fewer than 20 samples gets the
    high/low message.  The window the engine passes never exceeds its
    capacity, so that an emitted Event of the bed temperature whose window
    has at least 20 samples, all adjacent differences being sign changes,
    carries the oscillation message. *)
Theorem oscillation_diagnosed :
  (∀ z value (context : gmap string (list float)) recent,
     context !! "recent" = Some recent →
     20 ≤ length recent ≤ TREND_WINDOW → alternating (first_differences recent) →
     short_diagnosis "bed_temp_c" z value context
     = ("Bed temp oscillating (PID/drafts).",
        ["Tune bed PID"; "Cover enclosure / reduce drafts"; "Allow more warm-up time"]))
  ∧ (∀ z value (context : gmap string (list float)) recent,
       context !! "recent" = Some recent → length recent < 20 →
       short_diagnosis "bed_temp_c" z value context
       = ("Bed temp " +:+ (if (0 <? z)%float then "high" else "low") +:+ " vs trend.",
          ["Adjust bed temp ±3 °C"; "Check enclosure / drafts / PID"]))
  ∧ (∀ round st x st1 z rl ts t_sec sev now w,
       observe st "bed_temp_c" x = Ok (st1, z, rl) →
       recents st1 !! "bed_temp_c" = Some w →
       20 ≤ length w → alternating (first_differences w) →
       gate_open st1 (dedup_key sev "bed_temp_c" z) now = true →
       ∃ ev rest,
         (emit round st1 ts t_sec "bed_temp_c" x z sev now).2 = Event ev :: rest
         ∧ ev_message ev = "Bed temp oscillating (PID/drafts)."
         ∧ ev_suggestions ev
           = ["Tune bed PID"; "Cover enclosure / reduce drafts"; "Allow more warm-up time"]).
Proof.
  split; [|split].
  - intros z value context recent Hctx Hlen Halt.
    rewrite short_diagnosis_bed, Hctx. cbn [default from_option id].
    rewrite (oscillating_alternating _ Hlen Halt). reflexivity.
  - intros z value context recent Hctx Hlt.
    rewrite short_diagnosis_bed, Hctx. cbn [default from_option id].
    unfold oscillating. apply Nat.leb_gt in Hlt. rewrite Hlt. reflexivity.
  - intros round st x st1 z rl ts t_sec sev now w Ho Hw Hlo Halt Hg.
    destruct (observe_recents _ _ _ _ _ _ Ho) as (dq & _ & Hdq).
    assert (Hhi : length w ≤ TREND_WINDOW).
    { rewrite Hdq in Hw. injection Hw as <-. rewrite deque_append_length. lia. }
    rewrite (emit_open round _ _ _ _ _ _ _ _ Hg). cbn [snd].
    eexists _, _. split; [reflexivity|].
    cbn [ev_message ev_suggestions make_event].
    rewrite short_diagnosis_bed, lookup_singleton_eq, Hw. cbn [default from_option id].
    rewrite (oscillating_alternating w (conj Hlo Hhi) Halt). split; reflexivity.
Qed.

Lemma oscillation_diagnosed_witness :
  short_diagnosis "bed_temp_c" 3.5 61 {[ "recent" := zigzag 24 ]}
  = ("Bed temp oscillating (PID/drafts).",
     ["Tune bed PID"; "Cover enclosure / reduce drafts"; "Allow more warm-up time"])
  ∧ short_diagnosis "bed_temp_c" 3.5 61 {[ "recent" := zigzag 19 ]}
    = ("Bed temp high vs trend.",
       ["Adjust bed temp ±3 °C"; "Check enclosure / drafts / PID"]).
Proof.
  destruct oscillation_diagnosed as (Hosc & Hshort & _).
  split.
  - apply (Hosc 3.5 61 {[ "recent" := zigzag 24 ]} (zigzag 24))%float.
    + reflexivity.
    + vm_compute. lia.
    + apply alternating_check. vm_compute. reflexivity.
  - apply (Hshort 3.5 61 {[ "recent" := zigzag 19 ]} (zigzag 19))%float.
    + reflexivity.
    + vm_compute. lia.
Defined.

(** A window of 20 samples that goes up and down by [1e-200]: the first
    differences alternate in sign, their products underflow to [-0.0], no
    sign change is counted and the high/low message is returned. *)
Lemma oscillation_counterexample :
  length (tiny_zigzag 20) = 20
  ∧ spec_alternating_in_sign (first_differences (tiny_zigzag 20)) = true
  ∧ sign_changes (first_differences (tiny_zigzag 20)) = 0
  ∧ short_diagnosis "bed_temp_c" 3.5 1e-200 {[ "recent" := tiny_zigzag 20 ]}
    = ("Bed temp high vs trend.",
       ["Adjust bed temp ±3 °C"; "Check enclosure / drafts / PID"]).
Proof. vm_compute. repeat split. Qed.

(** ** The gate at the boundary, and a value that is not a number *)

Lemma emission_gate_witness :
  let r1 := emit (λ x _, x) init_state JNull JNull "bed_temp_c" 64 3.5 WARN 100 in
  let r2 := emit (λ x _, x) r1.1 JNull JNull "bed_temp_c" 64 3.2 WARN 101 in
  let r3 := emit (λ x _, x) r2.1 JNull JNull "bed_temp_c" 64 3.1 WARN 104 in
  count_events r1.2 = 1 ∧ r2.2 = [] ∧ count_events r3.2 = 1.
Proof.
  intros r1 r2 r3.
  apply (proj2 (emission_gate (λ x _, x)) "WARN:bed_temp_c:HIGH" WARN "bed_temp_c"
           init_state r1.1 r2.1 JNull JNull JNull JNull JNull JNull
           64 64 64 3.5 3.2 3.1 100 101 104)%float; reflexivity.
Defined.

(** Two qualifying samples of one key exactly 3.0 s apart: the time since the
    last emission does not exceed the cooldown, and yet both are emitted. *)
Lemma emission_gate_counterexample :
  let flow v := [("extruder_flow_mm3_s", JNum v)] in
  let input := [sample 1 (flow 6); sample 2 (flow 6);
                sample 10 (flow 4.2); sample 13 (flow 3)]%float in
  spec_gate_open 10 13 = false
  ∧ gate_open
      {| stats := ∅; runlen := ∅; recents := ∅;
         last_emit := {[ "WARN:extruder_flow_mm3_s:LOW" := ("", 10%float) ]} |}
      "WARN:extruder_flow_mm3_s:LOW" 13 = true
  ∧ (List.map (λ o, match o with
                    | Event e => (ev_t_sec e, ev_severity e, ev_signal e, (0 <? ev_zscore e)%float)
                    | Control c => (ctl_t_sec c, ALERT, "", false)
                    end)
       (main (λ _, None) (λ x _, x) input).1
     = [(JNum 10, WARN, "extruder_flow_mm3_s", false);
        (JNum 13, WARN, "extruder_flow_mm3_s", false)]).
Proof. vm_compute. repeat split. Qed.

Lemma dedup_affects_output_only_witness :
  let sigs := JObj [("bed_temp_c", JNum 61)] in
  let suppressed := watch (λ _, None) (λ x _, x) warmed_up JNull JNull sigs 1 "bed_temp_c" in
  let emitted := watch (λ _, None) (λ x _, x) warmed_up JNull JNull sigs 100 "bed_temp_c" in
  match suppressed, emitted with
  | Ok (t, out), Ok (t', out') =>
      stats t = stats t' ∧ runlen t = runlen t' ∧ recents t = recents t'
      ∧ (out = [] → last_emit t = last_emit warmed_up)
      ∧ (out' = [] → last_emit t' = last_emit warmed_up)
      ∧ out = [] ∧ (∃ e, out' = [Event e] ∧ ev_severity e = WARN)
      ∧ EWStats.mean <$> stats t !! "bed_temp_c" = Some (Some 60.05%float)
      ∧ RunLength.count <$> runlen t !! "bed_temp_c" = Some 1
      ∧ recents t !! "bed_temp_c" = Some [60; 61]%float
  | Raise e, Raise e' => e = e'
  | _, _ => False
  end.
Proof.
  intros sigs suppressed emitted.
  pose proof (proj2 (dedup_affects_output_only (λ x _, x) (λ _, None))
                warmed_up warmed_up JNull JNull sigs "bed_temp_c" 1%float 100%float
                eq_refl eq_refl eq_refl) as H.
  fold suppressed emitted in H.
  destruct suppressed as [[t out]|e] eqn:Hs, emitted as [[t' out']|e'] eqn:He;
    try exact H.
  destruct H as (H1 & H2 & H3 & H4 & H5).
  vm_compute in Hs. vm_compute in He.
  injection Hs as <- <-. injection He as <- <-.
  repeat split; try assumption; try (vm_compute; reflexivity).
  eexists. split; reflexivity.
Defined.

Lemma first_sample_is_silent_witness :
  match watch (λ _, None) (λ x _, x) init_state JNull JNull
          (JObj [("bed_temp_c", JNum 1e308)]) 1000 "bed_temp_c" with
  | Ok (_, out) => out = []
  | Raise _ => False
  end.
Proof.
  destruct (watch _ _ init_state JNull JNull _ 1000 "bed_temp_c") as [[st' out]|e] eqn:Hw.
  - pose proof (first_sample_is_silent (λ x _, x) (λ _, None)) as H.
    destruct H as [Hinit [_ [_ [Hquiet _]]]].
    refine (proj1 (Hquiet init_state JNull JNull _ _ "bed_temp_c" st' out _ Hw)).
    apply Hinit. unfold SIGNALS.
    apply elem_of_cons. right. apply elem_of_cons. left. reflexivity.
  - vm_compute in Hw. discriminate Hw.
Defined.

(** A first sample [Infinity], which [json.loads] accepts and [float()]
    passes on: the z-score is NaN, not 0 (and nothing is printed). *)
Lemma first_sample_counterexample :
  ∃ st1 z,
    observe init_state "bed_temp_c" infinity = Ok (st1, z, 0)
    ∧ (z =? 0)%float = false ∧ is_nan z = true
    ∧ (main (λ _, None) (λ x _, x) [sample 0 [("bed_temp_c", JNum infinity)]]).1 = [].
Proof.
  eexists _, _. split; [vm_compute; reflexivity|].
  split; [reflexivity|]. split; [reflexivity|]. vm_compute. reflexivity.
Qed.

(** C4 (the code does otherwise). A monitored signal whose value is present
    but not a number makes [float()] raise, and nothing catches the
    exception: the run ends there.  The signals after it in the record are
    not watched and the records after it are not read, whatever they are;
    with the offending entry left out, the same record is processed. *)
Theorem non_numeric_value_aborts (float_of_str : string → option float)
    (round : float → Z → float) (v : json) (e : exn)
    (rest : list (line * (string → float))) :
  float_of float_of_str v = Raise e →
  main float_of_str round
    (sample 0 [("nozzle_temp_c", v); ("bed_temp_c", JNum 60)] :: rest)
  = ([], Raise e)
  ∧ ∃ st, main float_of_str round [sample 0 [("bed_temp_c", JNum 60)]] = ([], Ok st)
          ∧ EWStats.mean <$> stats st !! "bed_temp_c" = Some (Some 60%float).
Proof.
  intros Hv. split.
  - unfold main, sample. cbn [run on_line get assoc String.eqb Ascii.eqb Bool.eqb default
      from_option id SIGNALS watch_all].
    unfold watch at 1. cbn. rewrite Hv. reflexivity.
  - eexists. split; [vm_compute; reflexivity|]. vm_compute. reflexivity.
Qed.

Lemma non_numeric_value_aborts_witness :
  main (λ _, None) (λ x _, x)
    [sample 0 [("nozzle_temp_c", JStr "n/a"); ("bed_temp_c", JNum 60)];
     sample 1 [("nozzle_temp_c", JNum 205); ("bed_temp_c", JNum 60)]]
  = ([], Raise ValueError).
Proof.
  apply (non_numeric_value_aborts (λ _, None) (λ x _, x) (JStr "n/a") ValueError).
  reflexivity.
Defined.

(** * Further properties of the engine *)

(** ** Signs under multiplication and addition *)

Lemma sign_or_nan_nonneg r : sign_or_nan false r → nonneg_or_nan r.
Proof. destruct r; simpl; auto. Qed.

Lemma nonneg_or_nan_float x :
  nonneg_or_nan (Prim2SF x) ↔ (0 <=? x)%float = true ∨ is_nan x = true.
Proof.
  unfold is_nan. rewrite FloatAxioms.leb_spec, FloatAxioms.eqb_spec, Prim2SF_zero.
  pose proof (Prim2SF_valid x) as Hv.
  destruct (Prim2SF x) as [s|[]| |[] m e]; simpl; try tauto; try (split; auto; fail).
  - intuition discriminate.
  - split; [intros [=]|]. intros [H|H]; [discriminate H|].
    unfold SFeqb in H. simpl in H. rewrite Z.compare_refl in H.
    change (Pos.compare_cont Eq m m) with (m ?= m)%positive in H.
    rewrite Pos.compare_refl in H. discriminate H.
Qed.

Lemma SFmul_nonneg x y :
  nonneg_or_nan x → nonneg_or_nan y → nonneg_or_nan (SFmul prec emax x y).
Proof.
  destruct x as [sx|sx| |sx mx ex], y as [sy|sy| |sy my ey]; simpl;
    intros Hx Hy; subst; try exact I; try reflexivity.
  apply sign_or_nan_nonneg, binary_round_aux_sign.
Qed.

Lemma SFmul_self_nonneg x : nonneg_or_nan (SFmul prec emax x x).
Proof.
  destruct x as [s|s| |s m e]; simpl; try exact I; try (destruct s; reflexivity).
  apply sign_or_nan_nonneg. replace (xorb s s) with false by (destruct s; reflexivity).
  apply binary_round_aux_sign.
Qed.

Lemma SFadd_nonneg x y :
  nonneg_or_nan x → nonneg_or_nan y → nonneg_or_nan (SFadd prec emax x y).
Proof.
  destruct x as [sx|sx| |sx mx ex], y as [sy|sy| |sy my ey].
  16: { cbn [nonneg_or_nan]. intros -> ->. unfold SFadd. cbn [cond_Zopp].
        change (Zpos ?a + Zpos ?b)%Z with (Zpos (a + b)). cbn [binary_normalize].
        unfold binary_round. destruct (shl_align (_ + _) _ _).
        apply sign_or_nan_nonneg, binary_round_aux_sign. }
  all: simpl; intros Hx Hy; subst; try exact I; try reflexivity.
  destruct sx, sy; exact I.
Qed.

Lemma mul_nonneg x y :
  nonneg_or_nan (Prim2SF x) → nonneg_or_nan (Prim2SF y) → nonneg_or_nan (Prim2SF (x * y)).
Proof. rewrite mul_spec. apply SFmul_nonneg. Qed.

Lemma mul_self_nonneg x : nonneg_or_nan (Prim2SF (x * x)).
Proof. rewrite mul_spec. apply SFmul_self_nonneg. Qed.

Lemma add_nonneg x y :
  nonneg_or_nan (Prim2SF x) → nonneg_or_nan (Prim2SF y) → nonneg_or_nan (Prim2SF (x + y)).
Proof. rewrite add_spec. apply SFadd_nonneg. Qed.

Lemma SFcompare_Eq_finite x s m e :
  SFcompare x (S754_finite s m e) = Some Eq → x = S754_finite s m e.
Proof.
  destruct x as [sx|sx| |sx mx ex]; simpl; try destruct sx; try destruct s;
    try discriminate.
  all: destruct (ex ?= e)%Z eqn:He; try discriminate.
  all: apply Z.compare_eq in He; subst ex.
  all: change (Pos.compare_cont Eq mx m) with (mx ?= m)%positive.
  all: destruct (mx ?= m)%positive eqn:Hm; try discriminate.
  all: apply Pos.compare_eq in Hm; subst mx; reflexivity.
Qed.

(** [1 - a] is not negative when [a <= 1]. *)
Lemma one_minus_nonneg a : (a <=? 1)%float = true → nonneg_or_nan (Prim2SF (1 - a)).
Proof.
  rewrite FloatAxioms.leb_spec. unfold SFleb. intros Hle.
  assert (H1 : Prim2SF 1 = S754_finite false 4503599627370496 (-52))
    by (vm_compute; reflexivity).
  destruct (SFcompare (Prim2SF a) (Prim2SF 1)) as [[]|] eqn:Hc; try discriminate.
  - rewrite H1 in Hc. apply SFcompare_Eq_finite in Hc.
    rewrite sub_spec, Hc, H1. unfold SF64sub. rewrite SFsub_diag. exact I.
  - assert (Hlt : (a <? 1)%float = true).
    { rewrite FloatAxioms.ltb_spec. unfold SFltb. rewrite Hc. reflexivity. }
    pose proof (sub_positive 1 a Hlt) as Hp. unfold positive_float in Hp.
    destruct (Prim2SF (1 - a)); simpl in *; auto.
Qed.

(** ** The tracker keeps its variance non-negative *)

Lemma EWStats_update_ok self x :
  (0 <=? EWStats.alpha self)%float = true → (EWStats.alpha self <=? 1)%float = true →
  tracker_ok self → tracker_ok (EWStats.update self x).1.
Proof.
  intros Ha0 Ha1. unfold tracker_ok, EWStats.update.
  destruct (EWStats.mean self) as [m|], (EWStats.var self) as [v|];
    cbn [fst EWStats.mean EWStats.var default from_option id];
    try contradiction; intros Hv.
  - apply nonneg_or_nan_float. apply nonneg_or_nan_float in Hv.
    apply add_nonneg; apply mul_nonneg.
    + apply nonneg_or_nan_float. left. exact Ha0.
    + apply mul_self_nonneg.
    + apply one_minus_nonneg, Ha1.
    + exact Hv.
  - left. reflexivity.
Qed.

Lemma EWStats_feed_ok a xs :
  (0 <=? a)%float = true → (a <=? 1)%float = true →
  tracker_ok (EWStats.feed (EWStats.init a) xs).
Proof.
  intros Ha0 Ha1. induction xs as [|x xs IH] using rev_ind; [exact I|].
  rewrite EWStats_feed_snoc. apply EWStats_update_ok; [| |exact IH];
    rewrite EWStats_feed_alpha; assumption.
Qed.

(** X1. For an adaptation rate between 0 and 1, whatever samples the tracker
    is fed (infinities and NaN included), its mean and variance are unset
    together (exactly when it has seen no sample) or set together, and the
    variance is never negative: it is [>= 0] or NaN. *)
Theorem tracker_variance_not_negative (a : float) (xs : list float) :
  (0 <=? a)%float = true → (a <=? 1)%float = true →
  let self := EWStats.feed (EWStats.init a) xs in
  match EWStats.mean self, EWStats.var self with
  | None, None => xs = []
  | Some _, Some v => xs ≠ [] ∧ ((0 <=? v)%float = true ∨ is_nan v = true)
  | _, _ => False
  end.
Proof.
  intros Ha0 Ha1 self. pose proof (EWStats_feed_ok a xs Ha0 Ha1) as Hok.
  fold self in Hok. unfold tracker_ok in Hok.
  destruct xs as [|x0 xs].
  - reflexivity.
  - destruct (EWStats_feed_set a x0 xs) as (m & v & Hm & Hv). fold self in Hm, Hv.
    rewrite Hm, Hv in *. split; [discriminate|exact Hok].
Qed.

Lemma tracker_variance_not_negative_witness :
  match EWStats.var (EWStats.feed (EWStats.init ALPHA) [60; infinity; 61]%float) with
  | Some v => (0 <=? v)%float = true ∨ is_nan v = true
  | None => False
  end.
Proof.
  pose proof (tracker_variance_not_negative ALPHA [60; infinity; 61]%float
                eq_refl eq_refl) as H.
  cbv zeta in H.
  destruct (EWStats.mean _), (EWStats.var _); try contradiction.
  - exact (proj2 H).
  - discriminate H.
Defined.

(** ** The run length is the length of the current stretch *)

Lemma RunLength_feed_app self l1 l2 :
  RunLength.feed self (l1 ++ l2)
  = ((RunLength.feed (RunLength.feed self l1).1 l2).1,
     (RunLength.feed self l1).2 ++ (RunLength.feed (RunLength.feed self l1).1 l2).2).
Proof.
  revert self. induction l1 as [|y l1 IH]; intros self.
  - cbn. destruct (RunLength.feed self l2); reflexivity.
  - cbn [app RunLength.feed]. destruct (RunLength.update self y) as [o' c].
    rewrite IH. destruct (RunLength.feed o' l1) as [o1 cs1]. cbn [fst snd].
    destruct (RunLength.feed o1 l2) as [o2 cs2]. reflexivity.
Qed.

(** X2. After any samples, the count of a fresh run-length tracker is the
    length of the stretch of samples at the end that all reach the
    threshold: the last [count] samples reach it, and the sample just before
    them, if there is one, does not.  The value returned for the last sample
    is that count. *)
Theorem run_length_is_trailing_stretch (thr : float) (zs : list float) :
  let c := RunLength.count (RunLength.feed (RunLength.init thr) zs).1 in
  c ≤ length zs
  ∧ Forall (λ z, (thr <=? abs z)%float = true) (drop (length zs - c) zs)
  ∧ (∀ z, zs !! (length zs - S c) = Some z → c < length zs →
          (thr <=? abs z)%float = false)
  ∧ (zs ≠ [] → last (RunLength.feed (RunLength.init thr) zs).2 = Some c).
Proof.
  induction zs as [|z zs IH] using rev_ind.
  - cbn. split; [lia|]. split; [constructor|]. split.
    + intros z Hz. discriminate Hz.
    + intros H. contradiction.
  - cbv zeta in *. rewrite RunLength_feed_app. cbn [fst snd].
    pose proof (RunLength_feed_threshold (RunLength.init thr) zs) as Hthr.
    destruct (RunLength.feed (RunLength.init thr) zs) as [o cs]. cbn [fst snd] in *.
    cbn [RunLength.feed]. unfold RunLength.update. rewrite Hthr.
    change (RunLength.threshold (RunLength.init thr)) with thr.
    destruct IH as (Hle & Hall & Hprev & _).
    rewrite length_app. cbn [length].
    destruct (thr <=? abs z)%float eqn:Hz; cbn [fst snd RunLength.count].
    + split; [lia|]. split; [|split].
      * replace (length zs + 1 - S (RunLength.count o))
          with (length zs - RunLength.count o) by lia.
        rewrite drop_app_le by lia. apply Forall_app. split; [exact Hall|].
        constructor; [exact Hz|constructor].
      * intros y Hy Hlt.
        replace (length zs + 1 - S (S (RunLength.count o)))
          with (length zs - S (RunLength.count o)) in Hy by lia.
        rewrite lookup_app_l in Hy by lia. apply Hprev; [exact Hy|lia].
      * intros _. rewrite last_snoc. reflexivity.
    + split; [lia|]. split; [|split].
      * replace (length zs + 1 - 0) with (length (zs ++ [z]))
          by (rewrite length_app; cbn; lia).
        rewrite drop_all. constructor.
      * intros y Hy _. replace (length zs + 1 - 1) with (length zs) in Hy by lia.
        rewrite lookup_app_r in Hy by lia. rewrite Nat.sub_diag in Hy.
        injection Hy as <-. exact Hz.
      * intros _. rewrite last_snoc. reflexivity.
Qed.

(** ** The recent window holds the last samples *)

Lemma deque_append_drop (n : nat) (l : list float) (x : float) :
  deque_append n (drop (length l - n) l) x
  = drop (length (l ++ [x]) - n) (l ++ [x]).
Proof.
  unfold deque_append. rewrite length_app, length_drop, length_app. cbn [length].
  destruct (decide (length l ≤ n)) as [Hle|Hgt].
  - replace (length l - n) with 0 by lia. rewrite drop_0. f_equal. lia.
  - rewrite <- (drop_app_le l [x]) by lia. rewrite drop_drop. f_equal. lia.
Qed.

(** X3. A window of capacity [maxlen] that starts empty and receives the
    samples [xs] one by one holds the last [maxlen] of them in their order
    (all of them while they are fewer), the oldest having left first; with
    capacity 0 it stays empty. *)
Theorem window_holds_last_samples (maxlen : nat) (xs : list float) :
  foldl (deque_append maxlen) [] xs = drop (length xs - maxlen) xs
  ∧ length (foldl (deque_append maxlen) [] xs) = length xs `min` maxlen.
Proof.
  assert (H : foldl (deque_append maxlen) [] xs = drop (length xs - maxlen) xs).
  { induction xs as [|x xs IH] using rev_ind; [reflexivity|].
    rewrite foldl_app. cbn [foldl]. rewrite IH. apply deque_append_drop. }
  split; [exact H|]. rewrite H, length_drop. lia.
Qed.

(** ** Reading the input *)

Section Reading.
Variable float_of_str : string → option float.
Variable round : float → Z → float.

Lemma run_app_eq st a b :
  run float_of_str round st (a ++ b)
  = match run float_of_str round st a with
    | (out, Ok st') =>
        let '(out', r) := run float_of_str round st' b in (out ++ out', r)
    | (out, Raise e) => (out, Raise e)
    end.
Proof.
  revert st. induction a as [|[l clock] a IH]; intros st.
  - cbn. destruct (run _ _ st b); reflexivity.
  - cbn [app run]. destruct (on_line _ _ st l clock) as [out [st1|e]]; [|reflexivity].
    rewrite IH. destruct (run _ _ st1 a) as [out1 [st2|e]]; [|reflexivity].
    destruct (run _ _ st2 b) as [out2 r]. rewrite app_assoc. reflexivity.
Qed.

(** X4. The loop is incremental: what a run has printed after a part of the
    input stays printed, as a prefix, whatever follows; if the part ended
    with an exception nothing of what follows is read, and otherwise the rest
    is processed from the state the part left. *)
Theorem run_is_incremental (st : state) (a b : list (line * (string → float))) :
  (run float_of_str round st a).1 `prefix_of` (run float_of_str round st (a ++ b)).1
  ∧ (∀ e, (run float_of_str round st a).2 = Raise e →
          run float_of_str round st (a ++ b) = run float_of_str round st a)
  ∧ (∀ st', (run float_of_str round st a).2 = Ok st' →
            run float_of_str round st (a ++ b)
            = ((run float_of_str round st a).1 ++ (run float_of_str round st' b).1,
               (run float_of_str round st' b).2)).
Proof.
  rewrite run_app_eq. destruct (run _ _ st a) as [out [st1|e]]; cbn [fst snd].
  - destruct (run _ _ st1 b) as [out' r] eqn:Hb. cbn [fst snd].
    split; [exists out'; reflexivity|]. split; [discriminate|].
    intros st' [= <-]. rewrite Hb. reflexivity.
  - split; [reflexivity|]. split; [reflexivity|discriminate].
Qed.

(** X5. Blank lines and lines that [json.loads] rejects with
    [JSONDecodeError] are passed over: a run on an input and the run on the
    same input without them print the same and end alike.  They are the
    only lines passed over: a line on which [json.loads] raises another
    exception ([ValueError] on an integer with too many digits,
    [RecursionError]) ends the run with that exception, nothing of it is
    printed and no later line is read. *)
Theorem only_decode_errors_are_skipped (st : state)
    (input : list (line * (string → float))) :
  run float_of_str round st input = run float_of_str round st (kept input)
  ∧ (∀ pre f clock rest,
       kept pre = [] →
       run float_of_str round st (pre ++ (Failing f, clock) :: rest)
       = ([], Raise (loads_exn f))).
Proof.
  assert (Hkept : ∀ inp st0,
            run float_of_str round st0 inp = run float_of_str round st0 (kept inp)).
  { induction inp as [|[l clock] inp IH]; intros st0; [reflexivity|].
    unfold kept. destruct l as [| |f|rec]; cbn [List.filter passed_over fst negb].
    - cbn [run on_line]. rewrite IH. destruct (run _ _ st0 _); reflexivity.
    - cbn [run on_line]. rewrite IH. destruct (run _ _ st0 _); reflexivity.
    - reflexivity.
    - cbn [run]. destruct (on_line _ _ st0 (Decoded rec) clock) as [out [st1|e]];
        [|reflexivity].
      rewrite IH. reflexivity. }
  split; [apply Hkept|].
  intros pre f clock rest Hpre. rewrite Hkept. unfold kept in *.
  rewrite List.filter_app, Hpre. reflexivity.
Qed.

Lemma watch_agree st ts t_sec sig sig' now s :
  assoc sig s = assoc sig' s →
  watch float_of_str round st ts t_sec (JObj sig) now s
  = watch float_of_str round st ts t_sec (JObj sig') now s.
Proof. intros H. unfold watch, contains, getitem. rewrite H. reflexivity. Qed.

Lemma watch_all_agree ss st ts t_sec sig sig' clock :
  (∀ s, s ∈ ss → assoc sig s = assoc sig' s) →
  watch_all float_of_str round ss st ts t_sec (JObj sig) clock
  = watch_all float_of_str round ss st ts t_sec (JObj sig') clock.
Proof.
  revert st. induction ss as [|s ss IH]; intros st H; [reflexivity|].
  cbn [watch_all]. rewrite (watch_agree st ts t_sec sig sig' (clock s) s)
    by (apply H; left).
  destruct (watch _ _ st ts t_sec (JObj sig') (clock s) s) as [[st' out]|e];
    [|reflexivity].
  rewrite IH by (intros s' Hs'; apply H; right; exact Hs'). reflexivity.
Qed.

Lemma watch_all_absent ss st ts t_sec sig clock :
  (∀ s, s ∈ ss → assoc sig s = None) →
  watch_all float_of_str round ss st ts t_sec (JObj sig) clock = ([], Ok st).
Proof.
  induction ss as [|s ss IH]; intros H; [reflexivity|].
  cbn [watch_all]. unfold watch, contains. rewrite (H s) by left. cbn.
  rewrite IH by (intros s' Hs'; apply H; right; exact Hs'). reflexivity.
Qed.

(** X6. Of a record the engine reads the time stamps and the monitored
    signals only: two records (JSON objects) that agree on ["ts"], on
    ["t_sec"] and on the values of the four monitored signals are processed
    alike, whatever else they hold; and a record without a ["signals"]
    entry, or whose signals hold none of the monitored names, prints nothing
    and leaves the state as it is. *)
Theorem only_monitored_signals_are_read (st : state) (clock : string → float)
    (kv kv' sig sig' : list (string * json)) :
  (assoc kv "ts" = assoc kv' "ts" → assoc kv "t_sec" = assoc kv' "t_sec" →
   assoc kv "signals" = Some (JObj sig) → assoc kv' "signals" = Some (JObj sig') →
   (∀ s, s ∈ SIGNALS → assoc sig s = assoc sig' s) →
   on_line float_of_str round st (Decoded (JObj kv)) clock
   = on_line float_of_str round st (Decoded (JObj kv')) clock)
  ∧ (assoc kv "signals" = Some (JObj sig) →
     (∀ s, s ∈ SIGNALS → assoc sig s = None) →
     on_line float_of_str round st (Decoded (JObj kv)) clock = ([], Ok st))
  ∧ (assoc kv "signals" = None →
     on_line float_of_str round st (Decoded (JObj kv)) clock = ([], Ok st)).
Proof.
  split; [|split].
  - intros Hts Ht Hs Hs' Hsig. cbn [on_line get].
    rewrite Hts, Ht, Hs, Hs'. cbn [default from_option id].
    apply watch_all_agree, Hsig.
  - intros Hs Hnone. cbn [on_line get]. rewrite Hs. cbn [default from_option id].
    apply watch_all_absent, Hnone.
  - intros Hs. cbn [on_line get]. rewrite Hs. cbn [default from_option id].
    apply watch_all_absent. reflexivity.
Qed.

Lemma zscore_not_attribute x mean var e :
  zscore x mean var = Raise e → e = ValueError ∨ e = ZeroDivisionError.
Proof.
  unfold zscore, math_sqrt, truediv.
  destruct (_ <? 0)%float; cbn; [intros [= <-]; auto|].
  destruct (_ =? 0)%float; [intros [= <-]; auto|discriminate].
Qed.

Lemma observe_not_attribute st s x e :
  observe st s x = Raise e → e ≠ AttributeError.
Proof.
  unfold observe, item.
  destruct (stats st !! s) as [es|]; cbn; [|intros [= <-]; discriminate].
  destruct (EWStats.update es x) as [es' [mean var]].
  destruct (zscore x (Some mean) (Some var)) as [z|e'] eqn:Hz; cbn.
  - destruct (recents st !! s); cbn; [|intros [= <-]; discriminate].
    destruct (runlen st !! s) as [rls|]; cbn; [|intros [= <-]; discriminate].
    destruct (RunLength.update rls z). discriminate.
  - intros [= <-]. destruct (zscore_not_attribute _ _ _ _ Hz) as [-> | ->]; discriminate.
Qed.

Lemma float_of_not_attribute v e :
  float_of float_of_str v = Raise e → e ≠ AttributeError.
Proof.
  destruct v as [|b|n|x|t|l|kv]; cbn [float_of]; try (intros [= <-]; discriminate).
  - unfold float_of_int. destruct (binary_normalize _ _ _ _ _);
      intros [= <-]; discriminate.
  - destruct (float_of_str t); cbn; intros [= <-]; discriminate.
Qed.

Lemma watch_not_attribute st ts t_sec sigs now s e :
  watch float_of_str round st ts t_sec sigs now s = Raise e → e ≠ AttributeError.
Proof.
  unfold watch, contains.
  destruct sigs as [|b|n|x|t|l|kv]; cbn; try (intros [= <-]; discriminate).
  all: match goal with |- context [negb ?c] => destruct c end; cbn; try discriminate.
  all: try (intros [= <-]; discriminate).
  unfold getitem. destruct (assoc kv s) as [v|]; cbn; [|intros [= <-]; discriminate].
  destruct (float_of float_of_str v) as [x|e0] eqn:Hf; cbn.
  - destruct (observe st s x) as [[[st1 z] rl]|e'] eqn:Ho; cbn; [discriminate|].
    intros [= <-]. eapply observe_not_attribute, Ho.
  - intros [= <-]. eapply float_of_not_attribute, Hf.
Qed.

Lemma watch_all_not_attribute ss st ts t_sec sigs clock e :
  (watch_all float_of_str round ss st ts t_sec sigs clock).2 = Raise e →
  e ≠ AttributeError.
Proof.
  revert st. induction ss as [|s ss IH]; intros st; [discriminate|].
  cbn [watch_all].
  destruct (watch _ _ st ts t_sec sigs (clock s) s) as [[st' out]|e'] eqn:Hw.
  - specialize (IH st'). destruct (watch_all _ _ ss st' ts t_sec sigs clock).
    exact IH.
  - intros [= <-]. eapply watch_not_attribute, Hw.
Qed.

(** X7. A line that decodes to something other than a JSON object (a list, a
    number, a string, [null]) ends the run with [AttributeError] before
    anything of it is printed, and no later line is read; this is the only
    way a line raises [AttributeError].  A record whose ["signals"] entry is
    [null], a number or a boolean ends the run with [TypeError]. *)
Theorem non_object_line_ends_run (st : state) (rec : json) (clock : string → float) :
  (is_object rec = false →
   ∀ rest, run float_of_str round st ((Decoded rec, clock) :: rest)
           = ([], Raise AttributeError))
  ∧ ((on_line float_of_str round st (Decoded rec) clock).2 = Raise AttributeError →
     is_object rec = false)
  ∧ (∀ kv v, rec = JObj kv → assoc kv "signals" = Some v →
             v = JNull ∨ (∃ n, v = JInt n) ∨ (∃ x, v = JNum x) ∨ (∃ b, v = JBool b) →
             ∀ rest, run float_of_str round st ((Decoded rec, clock) :: rest)
                     = ([], Raise TypeError)).
Proof.
  split; [|split].
  - intros Hrec rest. destruct rec; try discriminate Hrec; reflexivity.
  - destruct rec as [|b|n|x|t|l|kv]; try reflexivity. cbn [on_line get].
    intros H. exfalso. eapply watch_all_not_attribute; [exact H|reflexivity].
  - intros kv v -> Hs Hv rest. cbn [run on_line get]. rewrite Hs.
    cbn [default from_option id].
    destruct Hv as [-> | [[n ->] | [[x ->] | [b ->]]]]; reflexivity.
Qed.

(** ** The state stays in good order; what makes a run go through *)

Lemma zscore_total x mean v :
  (0 <=? v)%float = true ∨ is_nan v = true →
  ∃ z, zscore x (Some mean) (Some v) = Ok z.
Proof.
  intros [Hv|Hn].
  - eexists. apply zscore_defined. exact Hv.
  - assert (Hsf : Prim2SF v = S754_nan).
    { unfold is_nan in Hn. rewrite FloatAxioms.eqb_spec in Hn.
      pose proof (Prim2SF_valid v) as Hval.
      destruct (Prim2SF v) as [[]|[]| |[] m e]; try discriminate Hn; try reflexivity.
      all: unfold SFeqb in Hn; simpl in Hn; rewrite Z.compare_refl in Hn;
        change (Pos.compare_cont Eq m m) with (m ?= m)%positive in Hn;
        rewrite Pos.compare_refl in Hn; discriminate Hn. }
    unfold zscore, math_sqrt, truediv. cbn [default from_option id].
    assert (Hs : Prim2SF (v + EPS) = S754_nan) by (rewrite add_spec, Hsf; reflexivity).
    rewrite FloatAxioms.ltb_spec, Hs. cbn.
    rewrite FloatAxioms.eqb_spec, sqrt_spec, Hs. cbn. eexists. reflexivity.
Qed.

Lemma dedup_key_in_all_keys sev s z : s ∈ SIGNALS → dedup_key sev s z ∈ all_keys.
Proof.
  intros Hs. unfold SIGNALS in Hs.
  repeat (apply elem_of_cons in Hs as [->|Hs]);
    [| | | |apply elem_of_nil in Hs; destruct Hs].
  all: unfold dedup_key; destruct sev, (0 <? z)%float;
    apply list_elem_of_In; vm_compute;
    repeat first [left; reflexivity | right].
Qed.

Lemma all_keys_NoDup : NoDup all_keys.
Proof. refine (bool_decide_unpack (NoDup all_keys) _). vm_compute. exact I. Qed.

Lemma well_formed_init : well_formed init_state.
Proof.
  split.
  - intros s Hs. unfold SIGNALS in Hs.
    repeat (apply elem_of_cons in Hs as [->|Hs]);
      [| | | |apply elem_of_nil in Hs; destruct Hs].
    all: exists (EWStats.init ALPHA), (RunLength.init WARN_Z), [];
      repeat split; try (vm_compute; reflexivity); cbn; lia.
  - intros k [v Hk]. vm_compute in Hk. discriminate Hk.
Qed.

Lemma RunLength_update_threshold self z :
  RunLength.threshold (RunLength.update self z).1 = RunLength.threshold self.
Proof. unfold RunLength.update. destruct (_ <=? _)%float; reflexivity. Qed.

(** With its trackers in good order a sample always goes through [observe],
    which leaves them in good order and touches no other signal. *)
Lemma observe_tracked st s x :
  tracked st s →
  ∃ st1 z rl,
    observe st s x = Ok (st1, z, rl)
    ∧ tracked st1 s
    ∧ last_emit st1 = last_emit st
    ∧ (∀ s', s' ≠ s → stats st1 !! s' = stats st !! s'
                      ∧ runlen st1 !! s' = runlen st !! s'
                      ∧ recents st1 !! s' = recents st !! s').
Proof.
  intros (es & rls & dq & Hes & Ha & Hok & Hrls & Hthr & Hdq & Hlen & Hmean & Hcnt).
  unfold observe, item. rewrite Hes, Hrls, Hdq. cbn.
  pose proof (EWStats_update_ok es x) as Hok'. rewrite Ha in Hok'.
  specialize (Hok' eq_refl eq_refl Hok).
  pose proof (EWStats_update_alpha es x) as Ha'.
  destruct (EWStats_update_set es x) as (m' & v' & Hm' & Hv').
  assert (Hret : (EWStats.update es x).2 = (m', v')).
  { unfold EWStats.update in *. destruct (EWStats.mean es); cbn in *; congruence. }
  destruct (EWStats.update es x) as [es' [mean var]]. cbn [fst snd] in *.
  pose proof (f_equal fst Hret) as H1. pose proof (f_equal snd Hret) as H2.
  cbn [fst snd] in H1, H2. subst mean var. clear Hret.
  assert (Hv : (0 <=? v')%float = true ∨ is_nan v' = true).
  { unfold tracker_ok in Hok'. rewrite Hm', Hv' in Hok'. exact Hok'. }
  destruct (zscore_total x m' v' Hv) as (z & ->). cbn.
  destruct (RunLength.update rls z) as [rls' rl] eqn:Hu.
  eexists _, z, rl. split; [reflexivity|]. split; [|split; [reflexivity|]].
  - exists es', rls', (deque_append TREND_WINDOW dq x). cbn [stats runlen recents].
    rewrite !lookup_insert_eq.
    split; [reflexivity|]. split; [congruence|]. split; [exact Hok'|].
    split; [reflexivity|]. split.
    { pose proof (RunLength_update_threshold rls z) as Ht.
      rewrite Hu in Ht. cbn [fst] in Ht. congruence. }
    split; [reflexivity|]. split; [rewrite deque_append_length; lia|].
    split.
    + split; [rewrite Hm'; discriminate|].
      intros Hnil. apply (f_equal length) in Hnil.
      rewrite deque_append_length in Hnil. unfold TREND_WINDOW in Hnil.
      cbn in Hnil. lia.
    + rewrite Hm'. discriminate.
  - intros s' Hne. cbn [stats runlen recents].
    rewrite !lookup_insert_ne by congruence. repeat split.
Qed.

Lemma tracked_ext st st' s :
  stats st' !! s = stats st !! s → runlen st' !! s = runlen st !! s →
  recents st' !! s = recents st !! s → tracked st s → tracked st' s.
Proof.
  intros H1 H2 H3 (es & rls & dq & H). exists es, rls, dq.
  rewrite H1, H2, H3. exact H.
Qed.

Lemma report_keys st ts t_sec s x z rl now k :
  s ∈ SIGNALS →
  is_Some (last_emit (report round st ts t_sec s x z rl now).1 !! k) →
  is_Some (last_emit st !! k) ∨ k ∈ all_keys.
Proof.
  intros Hs. unfold report. destruct (decide_severity z rl) as [sev|]; [|auto].
  destruct (gate_open st (dedup_key sev s z) now) eqn:Hg.
  - rewrite (emit_open round _ _ _ _ _ _ _ _ Hg). cbn [fst last_emit].
    destruct (decide (k = dedup_key sev s z)) as [->|Hne].
    + intros _. right. apply dedup_key_in_all_keys, Hs.
    + rewrite lookup_insert_ne by congruence. auto.
  - rewrite (emit_closed round _ _ _ _ _ _ _ _ Hg). auto.
Qed.

Lemma watch_well_formed st ts t_sec sigs now s st' out :
  well_formed st → s ∈ SIGNALS →
  watch float_of_str round st ts t_sec sigs now s = Ok (st', out) →
  well_formed st'.
Proof.
  intros [Htr Hkeys] Hs. unfold watch.
  destruct (contains sigs s) as [[]|]; cbn; try discriminate.
  2: { intros [= <- <-]. split; assumption. }
  destruct (getitem sigs s) as [v|]; cbn; try discriminate.
  destruct (float_of float_of_str v) as [x|]; cbn; try discriminate.
  destruct (observe_tracked st s x (Htr s Hs)) as (st1 & z & rl & -> & Ht1 & Hl1 & Hfr).
  cbn. intros [= H].
  destruct (report_trackers round st1 ts t_sec s x z rl now) as (R1 & R2 & R3 & _).
  pose proof (report_keys st1 ts t_sec s x z rl now) as Rk.
  rewrite H in R1, R2, R3, Rk. cbn [fst] in *.
  split.
  - intros s0 Hs0. destruct (decide (s0 = s)) as [->|Hne].
    + apply (tracked_ext st1); [rewrite R1|rewrite R2|rewrite R3|]; auto.
    + destruct (Hfr s0 Hne) as (F1 & F2 & F3).
      apply (tracked_ext st); [rewrite R1|rewrite R2|rewrite R3|]; auto.
  - intros k Hk. destruct (Rk k Hs Hk) as [Hk'|Hk']; [|exact Hk'].
    apply Hkeys. rewrite <- Hl1. exact Hk'.
Qed.

Lemma watch_all_well_formed ss st ts t_sec sigs clock st' :
  well_formed st → (∀ s, s ∈ ss → s ∈ SIGNALS) →
  (watch_all float_of_str round ss st ts t_sec sigs clock).2 = Ok st' →
  well_formed st'.
Proof.
  revert st. induction ss as [|s ss IH]; intros st Hwf Hss.
  - cbn. intros [= <-]. exact Hwf.
  - cbn [watch_all].
    destruct (watch _ _ st ts t_sec sigs (clock s) s) as [[st1 out]|e] eqn:Hw;
      [|discriminate].
    pose proof (watch_well_formed _ _ _ _ _ _ _ _ Hwf (Hss s ltac:(left)) Hw) as Hwf1.
    specialize (IH st1 Hwf1 (λ s' H, Hss s' ltac:(right; exact H))).
    destruct (watch_all _ _ ss st1 ts t_sec sigs clock). exact IH.
Qed.

Lemma on_line_well_formed st l clock st' :
  well_formed st → (on_line float_of_str round st l clock).2 = Ok st' →
  well_formed st'.
Proof.
  intros Hwf. destruct l as [| |f|rec]; cbn [on_line snd]; try (intros [= <-]; exact Hwf).
  destruct (get rec "ts" JNull), (get rec "t_sec" JNull), (get rec "signals" (JObj []));
    try discriminate.
  apply watch_all_well_formed; auto.
Qed.

Lemma run_well_formed st input st' :
  well_formed st → (run float_of_str round st input).2 = Ok st' → well_formed st'.
Proof.
  revert st. induction input as [|[l clock] input IH]; intros st Hwf.
  - cbn. intros [= <-]. exact Hwf.
  - cbn [run]. pose proof (on_line_well_formed st l clock) as Hl.
    destruct (on_line _ _ st l clock) as [out [st1|e]]; [|discriminate].
    specialize (IH st1 (Hl st1 Hwf eq_refl)).
    destruct (run _ _ st1 input). exact IH.
Qed.

(** X8. The state of the engine stays in good order over a whole run: at the
    start and after any input that does not end the run, every monitored
    signal has its three trackers, with the configured adaptation rate and
    threshold, mean and variance set together and the variance not negative,
    a recent window of at most 80 samples that is empty exactly while no
    sample has been seen, and the last-emission map holds only keys among
    the sixteen of the monitored signals, so that it cannot grow without
    bound. *)
Theorem state_stays_in_good_order (input : list (line * (string → float))) (st : state) :
  well_formed init_state
  ∧ ((main float_of_str round input).2 = Ok st →
     well_formed st ∧ size (last_emit st) ≤ 16).
Proof.
  split; [exact well_formed_init|]. intros Hrun.
  pose proof (run_well_formed init_state input st well_formed_init Hrun) as Hwf.
  split; [exact Hwf|].
  destruct Hwf as [_ Hkeys].
  assert (Hsub : dom (last_emit st) ⊆ list_to_set (C := gset string) all_keys).
  { intros k Hk. apply elem_of_dom in Hk. apply elem_of_list_to_set, Hkeys, Hk. }
  rewrite <- size_dom. etransitivity; [apply subseteq_size, Hsub|].
  rewrite size_list_to_set by exact all_keys_NoDup. vm_compute. lia.
Qed.

Lemma watch_total st ts t_sec sig now s :
  well_formed st → s ∈ SIGNALS →
  (∀ v, assoc sig s = Some v → ∃ x, float_of float_of_str v = Ok x) →
  ∃ st' out, watch float_of_str round st ts t_sec (JObj sig) now s = Ok (st', out).
Proof.
  intros [Htr _] Hs Hv. unfold watch, contains, getitem.
  destruct (assoc sig s) as [v|]; cbn; [|eauto].
  destruct (Hv v eq_refl) as (x & ->). cbn.
  destruct (observe_tracked st s x (Htr s Hs)) as (st1 & z & rl & -> & _).
  cbn. destruct (report round st1 ts t_sec s x z rl now). eauto.
Qed.

Lemma watch_all_total ss st ts t_sec sig clock :
  well_formed st → (∀ s, s ∈ ss → s ∈ SIGNALS) →
  (∀ s v, s ∈ ss → assoc sig s = Some v → ∃ x, float_of float_of_str v = Ok x) →
  ∃ st', (watch_all float_of_str round ss st ts t_sec (JObj sig) clock).2 = Ok st'.
Proof.
  revert st. induction ss as [|s ss IH]; intros st Hwf Hss Hv; [cbn; eauto|].
  cbn [watch_all].
  destruct (watch_total st ts t_sec sig (clock s) s Hwf (Hss s ltac:(left))
              (λ v, Hv s v ltac:(left))) as (st1 & out & Hw).
  rewrite Hw.
  pose proof (watch_well_formed _ _ _ _ _ _ _ _ Hwf (Hss s ltac:(left)) Hw) as Hwf1.
  destruct (IH st1 Hwf1 (λ s' H, Hss s' ltac:(right; exact H))
              (λ s' v H, Hv s' v ltac:(right; exact H))) as (st2 & H2).
  destruct (watch_all _ _ ss st1 ts t_sec (JObj sig) clock). eauto.
Qed.

Lemma on_line_total st l clock :
  well_formed st → processable float_of_str l →
  ∃ st', (on_line float_of_str round st l clock).2 = Ok st'.
Proof.
  intros Hwf Hl. destruct l as [| |f|rec]; cbn [on_line snd]; eauto;
    [contradiction|].
  destruct rec as [|b|n|x|t|l|kv]; try contradiction. cbn [processable] in Hl.
  cbn [get]. destruct (assoc kv "signals") as [[|b|n|x|t|l|sig]|];
    try contradiction; cbn [default from_option id].
  - apply watch_all_total; auto.
  - apply watch_all_total; auto. intros s v _ Hv. discriminate Hv.
Qed.

Lemma run_total st input :
  well_formed st → Forall (λ i, processable float_of_str i.1) input →
  ∃ st', (run float_of_str round st input).2 = Ok st'.
Proof.
  revert st. induction input as [|[l clock] input IH]; intros st Hwf Hall;
    [cbn; eauto|].
  apply Forall_cons in Hall as [Hl Hall]. cbn [run fst] in *.
  destruct (on_line_total st l clock Hwf Hl) as (st1 & H1).
  pose proof (on_line_well_formed st l clock st1 Hwf H1) as Hwf1.
  destruct (on_line _ _ st l clock) as [out r]. cbn [snd] in H1. subst r.
  destruct (IH st1 Hwf1 Hall) as (st2 & H2).
  destruct (run _ _ st1 input). eauto.
Qed.

(** X9. Only the shape of the input can end a run, never the arithmetic:
    if every line is passed over (blank, [JSONDecodeError]) or decodes to an
    object whose ["signals"] entry, where there is one, is an object in
    which the values of the monitored signals convert with [float()], the
    run goes through the whole input, whatever the converted values are,
    infinities, NaN and the largest doubles included.  Neither [math.sqrt]
    nor the division of [zscore] nor a dictionary lookup can raise.  What
    [float()] does not convert is not covered: a string it cannot read, a
    list, an object, [null], and an integer beyond the doubles, which
    raises [OverflowError]. *)
Theorem convertible_values_never_raise (input : list (line * (string → float))) :
  Forall (λ i, processable float_of_str i.1) input →
  ∃ st, (main float_of_str round input).2 = Ok st.
Proof.
  intros Hall.
  destruct (run_total init_state input well_formed_init Hall) as (st & Hst).
  exists st. exact Hst.
Qed.

End Reading.

Lemma only_monitored_signals_are_read_witness :
  on_line (λ _, None) (λ x _, x) init_state
    (Decoded (JObj [("ts", JStr "t"); ("layer_index", JNum 3);
                    ("signals", JObj [("vibration_rms_g", JNum 0.02);
                                      ("bed_temp_c", JNum 60)])]))
    (λ _, 0%float)
  = on_line (λ _, None) (λ x _, x) init_state
      (Decoded (JObj [("signals", JObj [("bed_temp_c", JNum 60)]);
                      ("ts", JStr "t")]))
      (λ _, 0%float).
Proof.
  apply (proj1 (only_monitored_signals_are_read (λ _, None) (λ x _, x) init_state
                  (λ _, 0%float) _ _ [("vibration_rms_g", JNum 0.02);
                                      ("bed_temp_c", JNum 60)]
                  [("bed_temp_c", JNum 60)])); try reflexivity.
  intros s Hs. unfold SIGNALS in Hs.
  repeat (apply elem_of_cons in Hs as [->|Hs]); try reflexivity.
  apply elem_of_nil in Hs. destruct Hs.
Defined.

Lemma processable_sample float_of_str now sig :
  (∀ s v, s ∈ SIGNALS → assoc sig s = Some v → ∃ x, float_of float_of_str v = Ok x) →
  processable float_of_str (sample now sig).1.
Proof. intros H. exact H. Qed.

(** [float()] on integers at the edge of the doubles. *)
Lemma float_of_int_edge :
  float_of_int 60 = Ok 60%float
  ∧ float_of_int (2 ^ 53 + 1) = Ok 9007199254740992%float
  ∧ float_of_int (2 ^ 1024 - 2 ^ 970 - 1) = Ok 0x1.fffffffffffffp+1023%float
  ∧ float_of_int (2 ^ 1024 - 2 ^ 970) = Raise OverflowError
  ∧ float_of_int (- 2 ^ 1024) = Raise OverflowError.
Proof. repeat split; vm_compute; reflexivity. Qed.

Lemma convertible_values_never_raise_witness :
  ∃ st, (main (λ _, None) (λ x _, x)
           [sample 0 [("bed_temp_c", JNum infinity)];
            sample 1 [("bed_temp_c", JNum 1e308); ("nozzle_temp_c", JNum nan)];
            sample 2 [("bed_temp_c", JNum (-1e308)); ("nozzle_temp_c", JBool true)];
            sample 3 [("bed_temp_c", JInt 60); ("nozzle_temp_c", JInt (2 ^ 1023))]]).2
        = Ok st.
Proof.
  apply (convertible_values_never_raise (λ _, None) (λ x _, x)).
  repeat (apply Forall_cons; split); try (apply Forall_nil; exact I).
  all: apply processable_sample; intros s v Hs Hv; unfold SIGNALS in Hs;
    repeat (apply elem_of_cons in Hs as [->|Hs]);
    try (apply elem_of_nil in Hs; destruct Hs);
    vm_compute in Hv; try discriminate Hv;
    injection Hv as <-; eexists; vm_compute; reflexivity.
Defined.

(** ** What a line prints *)

Lemma short_diagnosis_monitored s z value context :
  s ∈ SIGNALS → short_diagnosis s z value context ∈ diagnoses.
Proof.
  intros Hs. unfold SIGNALS in Hs.
  repeat (apply elem_of_cons in Hs as [->|Hs]);
    [| | | |apply elem_of_nil in Hs; destruct Hs].
  - unfold short_diagnosis. cbn [String.eqb Ascii.eqb Bool.eqb andb].
    unfold diagnoses. destruct (z <? 0)%float; rewrite !elem_of_cons; tauto.
  - rewrite short_diagnosis_bed. unfold diagnoses.
    destruct (oscillating _), (0 <? z)%float; rewrite !elem_of_cons; tauto.
  - unfold short_diagnosis. cbn [String.eqb Ascii.eqb Bool.eqb andb].
    unfold diagnoses. destruct (z <? 0)%float; rewrite !elem_of_cons; tauto.
  - unfold short_diagnosis. cbn [String.eqb Ascii.eqb Bool.eqb andb].
    unfold diagnoses. destruct (0 <? z)%float; rewrite !elem_of_cons; tauto.
Qed.

Section Printing.
Variable float_of_str : string → option float.
Variable round : float → Z → float.

(** What watching one signal prints: nothing, its Event, or its Event and
    the ControlAction of a safety-critical signal. *)
Lemma watch_shape st ts t_sec sigs now s st' out :
  watch float_of_str round st ts t_sec sigs now s = Ok (st', out) →
  out = []
  ∨ ∃ ev, ev_signal ev = s ∧ stamps (Event ev) = (ts, t_sec)
      ∧ (∃ z x ctx, (ev_message ev, ev_suggestions ev) = short_diagnosis s z x ctx)
      ∧ (out = [Event ev]
         ∨ safety_critical s ∧ out = [Event ev; Control (make_control ts t_sec s)]).
Proof.
  unfold watch. destruct (contains sigs s) as [[]|]; cbn; try discriminate.
  2: { intros [= <- <-]. left. reflexivity. }
  destruct (getitem sigs s) as [v|]; cbn; try discriminate.
  destruct (float_of float_of_str v) as [x|]; cbn; try discriminate.
  destruct (observe st s x) as [[[st1 z] rl]|]; cbn; try discriminate.
  intros [= H]. unfold report in H.
  destruct (decide_severity z rl) as [sev|]; [|injection H as <- <-; left; reflexivity].
  destruct (gate_open st1 (dedup_key sev s z) now) eqn:Hg.
  - rewrite (emit_open round _ _ _ _ _ _ _ _ Hg) in H. injection H as <- <-.
    right. set (d := short_diagnosis s z x _).
    exists (make_event round ts t_sec sev s x z d.1 d.2).
    split; [reflexivity|]. split; [reflexivity|]. split.
    { eexists z, x, _. cbn [ev_message ev_suggestions make_event].
      symmetry. apply surjective_pairing. }
    case_decide as Hc; [right|left; reflexivity].
    split; [exact (proj2 Hc)|reflexivity].
  - rewrite (emit_closed round _ _ _ _ _ _ _ _ Hg) in H. injection H as <- <-.
    left. reflexivity.
Qed.

Lemma watch_output_well_formed st ts t_sec sigs now s st' out :
  s ∈ SIGNALS →
  watch float_of_str round st ts t_sec sigs now s = Ok (st', out) →
  Forall well_formed_output out ∧ Forall (λ o, stamps o = (ts, t_sec)) out.
Proof.
  intros Hs Hw.
  destruct (watch_shape _ _ _ _ _ _ _ _ Hw)
    as [-> | (ev & Hsig & Hst & (z & x & ctx & Hd) & [-> | [Hc ->]])].
  - split; constructor.
  - assert (Hev : well_formed_output (Event ev)).
    { split; [rewrite Hsig; exact Hs|].
      rewrite Hd. apply short_diagnosis_monitored, Hs. }
    split; (constructor; [assumption|constructor]).
  - assert (Hev : well_formed_output (Event ev)).
    { split; [rewrite Hsig; exact Hs|].
      rewrite Hd. apply short_diagnosis_monitored, Hs. }
    assert (Hctl : well_formed_output (Control (make_control ts t_sec s))).
    { split; [reflexivity|]. exists s. split; [exact Hc|reflexivity]. }
    split; (constructor; [assumption|constructor; [|constructor]]);
      [exact Hctl|reflexivity].
Qed.

Lemma event_signals_app a b : event_signals (a ++ b) = event_signals a ++ event_signals b.
Proof. apply omap_app. Qed.

Lemma event_signals_event e out :
  event_signals (Event e :: out) = ev_signal e :: event_signals out.
Proof. reflexivity. Qed.

Lemma event_signals_control c out : event_signals (Control c :: out) = event_signals out.
Proof. reflexivity. Qed.

Lemma watch_all_output ss st ts t_sec sigs clock :
  (∀ s, s ∈ ss → s ∈ SIGNALS) →
  let out := (watch_all float_of_str round ss st ts t_sec sigs clock).1 in
  Forall well_formed_output out
  ∧ Forall (λ o, stamps o = (ts, t_sec)) out
  ∧ event_signals out `sublist_of` ss
  ∧ length out
    ≤ length ss
      + length (List.filter
                  (λ s, String.eqb s "extruder_flow_mm3_s" || String.eqb s "nozzle_temp_c")
                  ss).
Proof.
  revert st. induction ss as [|s ss IH]; intros st Hss.
  - cbn. repeat split; constructor.
  - cbn [watch_all].
    destruct (watch _ _ st ts t_sec sigs (clock s) s) as [[st1 out1]|e] eqn:Hw.
    2: { cbn. repeat split; try constructor; try lia. apply sublist_nil_l. }
    specialize (IH st1 (λ s' H, Hss s' ltac:(right; exact H))).
    destruct (watch_all _ _ ss st1 ts t_sec sigs clock) as [out' r].
    cbv zeta in IH. cbn [fst] in *. destruct IH as (I1 & I2 & I3 & I4).
    destruct (watch_output_well_formed _ _ _ _ _ _ _ _ (Hss s ltac:(left)) Hw)
      as [W1 W2].
    split; [apply Forall_app; auto|]. split; [apply Forall_app; auto|].
    rewrite event_signals_app, length_app. cbn [List.filter].
    destruct (watch_shape _ _ _ _ _ _ _ _ Hw)
      as [-> | (ev & Hsig & _ & _ & [-> | [Hc ->]])];
      rewrite ?event_signals_event, ?event_signals_control; cbn [app length].
    + split; [apply sublist_cons, I3|].
      destruct (_ || _); cbn [length]; lia.
    + rewrite Hsig. split; [apply sublist_skip, I3|].
      destruct (_ || _); cbn [length]; lia.
    + rewrite Hsig. split; [apply sublist_skip, I3|].
      apply safety_critical_eqb in Hc. rewrite Hc. cbn [length]. lia.
Qed.

(** X10. One line prints at most one Event per monitored signal, in the
    order of [SIGNALS], each with the time stamps of the record; with the
    ControlActions of the two safety-critical signals that makes at most six
    output lines, at most four of them Events. *)
Theorem line_output_is_bounded (st : state) (l : line) (clock : string → float) :
  let out := (on_line float_of_str round st l clock).1 in
  event_signals out `sublist_of` SIGNALS
  ∧ length out ≤ 6
  ∧ count_events out ≤ 4
  ∧ ∀ rec, l = Decoded rec →
           Forall (λ o, Ok (stamps o).1 = get rec "ts" JNull
                        ∧ Ok (stamps o).2 = get rec "t_sec" JNull) out.
Proof.
  assert (Hcount : ∀ out, count_events out = length (event_signals out)).
  { induction out as [|[e|c] out IH]; cbn; [reflexivity| |exact IH].
    unfold count_events in *. cbn. rewrite IH. reflexivity. }
  cbv zeta. destruct l as [| |f|rec]; cbn [on_line fst].
  1-3: repeat split; try (cbn; lia); try apply sublist_nil_l;
    intros rec Hrec; discriminate Hrec.
  destruct (get rec "ts" JNull) as [ts|] eqn:Hts;
    [destruct (get rec "t_sec" JNull) as [t_sec|] eqn:Ht;
     [destruct (get rec "signals" (JObj [])) as [sigs|] eqn:Hs|]|].
  2-4: repeat split; try (cbn; lia); try apply sublist_nil_l;
    intros rec' Hrec; constructor.
  destruct (watch_all_output SIGNALS st ts t_sec sigs clock (λ s H, H))
    as (_ & H2 & H3 & H4).
  split; [exact H3|]. split; [exact H4|]. split.
  - rewrite Hcount. apply sublist_length in H3. exact H3.
  - intros rec' [= <-]. rewrite Hts, Ht.
    eapply Forall_impl; [exact H2|]. intros o Ho. rewrite Ho. split; reflexivity.
Qed.

Lemma on_line_output_well_formed st l clock :
  Forall well_formed_output (on_line float_of_str round st l clock).1.
Proof.
  destruct l as [| |f|rec]; cbn [on_line fst]; try constructor.
  destruct (get rec "ts" JNull), (get rec "t_sec" JNull), (get rec "signals" (JObj []));
    try constructor.
  apply (watch_all_output SIGNALS). auto.
Qed.

(** X11. Every line a run prints, whatever the input and however the run
    ends, is an Event of one of the four monitored signals carrying one of
    the nine specific diagnoses, or a ["PAUSE_PRINT"] ControlAction whose
    reason names a safety-critical signal; the generic
    ["<signal> high/low vs expected."] diagnosis is never printed. *)
Theorem output_lines_are_well_formed (st : state) (input : list (line * (string → float))) :
  Forall well_formed_output (run float_of_str round st input).1
  ∧ Forall (λ o, match o with
                 | Event e => ev_suggestions e ≠ ["Inspect recent changes"]
                 | Control _ => True
                 end) (run float_of_str round st input).1.
Proof.
  assert (H : Forall well_formed_output (run float_of_str round st input).1).
  { revert st. induction input as [|[l clock] input IH]; intros st; [constructor|].
    cbn [run]. pose proof (on_line_output_well_formed st l clock) as Hl.
    destruct (on_line _ _ st l clock) as [out [st1|e]]; cbn [fst] in *; [|exact Hl].
    specialize (IH st1). destruct (run _ _ st1 input) as [out' r]. cbn [fst] in *.
    apply Forall_app. split; assumption. }
  split; [exact H|]. eapply Forall_impl; [exact H|].
  intros [e|c]; [|auto]. intros [_ Hd] Heq. cbn in Hd. rewrite Heq in Hd.
  unfold diagnoses in Hd. rewrite !elem_of_cons, elem_of_nil in Hd.
  repeat destruct Hd as [Hd|Hd]; try discriminate Hd; exact Hd.
Qed.

End Printing.

(** ** NaN, direction and the warn level *)

Lemma is_nan_SF x : is_nan x = true → Prim2SF x = S754_nan.
Proof.
  unfold is_nan. rewrite FloatAxioms.eqb_spec. intros Hn.
  destruct (Prim2SF x) as [[]|[]| |[] m e]; try discriminate Hn; try reflexivity.
  all: unfold SFeqb in Hn; simpl in Hn; rewrite Z.compare_refl in Hn;
    change (Pos.compare_cont Eq m m) with (m ?= m)%positive in Hn;
    rewrite Pos.compare_refl in Hn; discriminate Hn.
Qed.

Lemma is_nan_eq x : is_nan x = true → x = nan.
Proof.
  intros Hn. rewrite <- (SF2Prim_Prim2SF x), (is_nan_SF x Hn). reflexivity.
Qed.

Lemma mul_nan_r x : (x * nan)%float = nan.
Proof.
  rewrite <- (SF2Prim_Prim2SF (x * nan)), mul_spec.
  change (Prim2SF nan) with S754_nan. unfold SF64mul.
  destruct (Prim2SF x); reflexivity.
Qed.

Lemma add_nan_l x : (nan + x)%float = nan.
Proof.
  rewrite <- (SF2Prim_Prim2SF (nan + x)), add_spec.
  change (Prim2SF nan) with S754_nan. reflexivity.
Qed.

Lemma add_nan_r x : (x + nan)%float = nan.
Proof.
  rewrite <- (SF2Prim_Prim2SF (x + nan)), add_spec.
  change (Prim2SF nan) with S754_nan. unfold SF64add.
  destruct (Prim2SF x); reflexivity.
Qed.

Lemma sub_nan_r x : (x - nan)%float = nan.
Proof.
  rewrite <- (SF2Prim_Prim2SF (x - nan)), sub_spec.
  change (Prim2SF nan) with S754_nan. unfold SF64sub.
  destruct (Prim2SF x); reflexivity.
Qed.

(** Once the mean is NaN, mean, variance and z-score are NaN at every
    sample, and the run length is 0. *)
Lemma update_nan_mean es m x :
  EWStats.mean es = Some m → is_nan m = true →
  EWStats.update es x
  = (EWStats.mk (EWStats.alpha es) (Some nan) (Some nan), (nan, nan)).
Proof.
  intros Hm Hn. apply is_nan_eq in Hn. subst m.
  unfold EWStats.update. rewrite Hm.
  rewrite sub_nan_r, !mul_nan_r, add_nan_r, add_nan_l. reflexivity.
Qed.

Lemma zscore_nan_mean x : zscore x (Some nan) (Some nan) = Ok nan.
Proof.
  unfold zscore, math_sqrt, truediv. cbn [default from_option id].
  rewrite sub_nan_r. reflexivity.
Qed.

Lemma sub_nan_l x : (nan - x)%float = nan.
Proof.
  rewrite <- (SF2Prim_Prim2SF (nan - x)), sub_spec.
  change (Prim2SF nan) with S754_nan. reflexivity.
Qed.

(** A NaN sample makes the mean NaN; the variance is [0.0] at a first
    sample and NaN after it. *)
Lemma update_nan_sample es x :
  is_nan x = true →
  ∃ v, EWStats.update es x = (EWStats.mk (EWStats.alpha es) (Some nan) (Some v), (nan, v))
       ∧ (v = 0%float ∨ v = nan).
Proof.
  intros Hn. apply is_nan_eq in Hn. subst x. unfold EWStats.update.
  destruct (EWStats.mean es) as [m|]; [|eauto].
  rewrite sub_nan_l, !mul_nan_r, !add_nan_l. eauto.
Qed.

Lemma RunLength_update_nan rls :
  RunLength.update rls nan = (RunLength.mk (RunLength.threshold rls) 0, 0).
Proof.
  unfold RunLength.update.
  assert (H : (RunLength.threshold rls <=? abs nan)%float = false).
  { rewrite FloatAxioms.leb_spec, abs_spec. change (Prim2SF nan) with S754_nan.
    unfold SFleb, SFabs. destruct (Prim2SF (RunLength.threshold rls)) as [| | |? ? ?]; reflexivity. }
  rewrite H. reflexivity.
Qed.

Lemma observe_blind st s x :
  blind st s →
  ∃ st1, observe st s x = Ok (st1, nan, 0) ∧ blind st1 s
         ∧ last_emit st1 = last_emit st
         ∧ ∀ s', s' ≠ s → stats st1 !! s' = stats st !! s'
                          ∧ runlen st1 !! s' = runlen st !! s'
                          ∧ recents st1 !! s' = recents st !! s'.
Proof.
  intros (es & rls & dq & m & Hes & Hm & Hn & Hrl & Hdq).
  unfold observe, item. rewrite Hes. cbn [mbind res_bind default from_option].
  rewrite (update_nan_mean es m x Hm Hn), zscore_nan_mean.
  cbn [mbind res_bind]. rewrite Hdq, Hrl. cbn [mbind res_bind default from_option].
  rewrite RunLength_update_nan. eexists. split; [reflexivity|].
  split; [|split; [reflexivity|]].
  - exists (EWStats.mk (EWStats.alpha es) (Some nan) (Some nan)),
      (RunLength.mk (RunLength.threshold rls) 0),
      (deque_append TREND_WINDOW dq x), nan.
    cbn [stats runlen recents]. rewrite !lookup_insert_eq. repeat split; reflexivity.
  - intros s' Hs'. cbn [stats runlen recents].
    rewrite !lookup_insert_ne by congruence. repeat split; reflexivity.
Qed.

Lemma observe_nan_sample st s es rls dq x :
  stats st !! s = Some es → runlen st !! s = Some rls → recents st !! s = Some dq →
  is_nan x = true →
  ∃ st1, observe st s x = Ok (st1, nan, 0) ∧ blind st1 s.
Proof.
  intros Hes Hrl Hdq Hn.
  destruct (update_nan_sample es x Hn) as (v & Hu & Hv).
  apply is_nan_eq in Hn. subst x.
  unfold observe, item. rewrite Hes. cbn [mbind res_bind default from_option].
  rewrite Hu.
  assert (Hz : zscore nan (Some nan) (Some v) = Ok nan)
    by (destruct Hv as [-> | ->]; reflexivity).
  rewrite Hz. cbn [mbind res_bind]. rewrite Hdq, Hrl.
  cbn [mbind res_bind default from_option].
  rewrite RunLength_update_nan. eexists. split; [reflexivity|].
  exists (EWStats.mk (EWStats.alpha es) (Some nan) (Some v)),
    (RunLength.mk (RunLength.threshold rls) 0),
    (deque_append TREND_WINDOW dq nan), nan.
  cbn [stats runlen recents]. rewrite !lookup_insert_eq. repeat split; reflexivity.
Qed.

Lemma blind_ext st st' s :
  stats st' !! s = stats st !! s → runlen st' !! s = runlen st !! s →
  recents st' !! s = recents st !! s → blind st s → blind st' s.
Proof.
  intros H1 H2 H3 (es & rls & dq & m & Hes & Hm & Hn & Hrl & Hdq).
  exists es, rls, dq, m. rewrite H1, H2, H3. auto.
Qed.

Section Blindness.
Variable float_of_str : string → option float.
Variable round : float → Z → float.

Lemma watch_blind st ts t_sec sigs now s st' out :
  blind st s →
  watch float_of_str round st ts t_sec sigs now s = Ok (st', out) →
  out = [] ∧ blind st' s.
Proof.
  intros Hb. unfold watch.
  destruct (contains sigs s) as [[]|]; cbn; try discriminate.
  2: { intros [= <- <-]. auto. }
  destruct (getitem sigs s) as [v|]; cbn; try discriminate.
  destruct (float_of float_of_str v) as [x|]; cbn; try discriminate.
  destruct (observe_blind st s x Hb) as (st1 & -> & Hb1 & _).
  cbn. intros [= <- <-]. auto.
Qed.

Lemma watch_nan_sample st ts t_sec sig now s v x :
  tracked st s → assoc sig s = Some v → float_of float_of_str v = Ok x →
  is_nan x = true →
  ∃ st', watch float_of_str round st ts t_sec (JObj sig) now s = Ok (st', [])
         ∧ blind st' s.
Proof.
  intros (es & rls & dq & Hes & _ & _ & Hrl & _ & Hdq & _) Hv Hx Hn.
  unfold watch, contains, getitem. rewrite Hv. cbn. rewrite Hx. cbn.
  destruct (observe_nan_sample st s es rls dq x Hes Hrl Hdq Hn) as (st1 & -> & Hb).
  cbn. eauto.
Qed.

Lemma watch_keeps_blind st ts t_sec sigs now s s' st' out :
  s' ≠ s →
  watch float_of_str round st ts t_sec sigs now s' = Ok (st', out) →
  (s ∉ event_signals out) ∧ (blind st s → blind st' s).
Proof.
  intros Hne Hw. split.
  - destruct (watch_shape float_of_str round _ _ _ _ _ _ _ _ Hw)
      as [-> | (ev & Hsig & _ & _ & [-> | [_ ->]])]; cbn; rewrite ?Hsig;
      rewrite ?elem_of_cons, elem_of_nil; intuition congruence.
  - destruct (watch_other round float_of_str _ _ _ _ _ _ _ _ _ Hne Hw) as (H1 & H2 & H3).
    apply blind_ext; assumption.
Qed.

Lemma watch_all_blind ss st ts t_sec sigs clock s :
  blind st s →
  let r := watch_all float_of_str round ss st ts t_sec sigs clock in
  (s ∉ event_signals r.1) ∧ ∀ st', r.2 = Ok st' → blind st' s.
Proof.
  revert st. induction ss as [|s0 ss IH]; intros st Hb; cbn [watch_all].
  { cbn. split; [intros H; inversion H|]. intros st' [= <-]. exact Hb. }
  destruct (watch float_of_str round st ts t_sec sigs (clock s0) s0)
    as [[st1 out]|e] eqn:Hw.
  2: { cbn. split; [intros H; inversion H|]. discriminate. }
  assert (Hout : (s ∉ event_signals out) ∧ blind st1 s).
  { destruct (decide (s0 = s)) as [->|Hne].
    - destruct (watch_blind _ _ _ _ _ _ _ _ Hb Hw) as [-> Hb1]. split; [intros H; inversion H|exact Hb1].
    - destruct (watch_keeps_blind _ _ _ _ _ s _ _ _ Hne Hw) as [H1 H2]. auto. }
  destruct Hout as [Hout Hb1]. specialize (IH st1 Hb1). cbn zeta in IH.
  destruct (watch_all float_of_str round ss st1 ts t_sec sigs clock) as [out' r].
  cbn [fst snd] in *. rewrite event_signals_app. split; [|exact (proj2 IH)].
  rewrite elem_of_app. intros [H|H]; [exact (Hout H)|exact (proj1 IH H)].
Qed.

Lemma on_line_blind st l clock s :
  blind st s →
  let r := on_line float_of_str round st l clock in
  (s ∉ event_signals r.1) ∧ ∀ st', r.2 = Ok st' → blind st' s.
Proof.
  intros Hb. destruct l as [| |f|rec]; cbn [on_line].
  1,2: cbn; split; [intros H; inversion H|intros st' [= <-]; exact Hb].
  1: cbn; split; [intros H; inversion H|discriminate].
  destruct (get rec "ts" JNull) as [ts|e1], (get rec "t_sec" JNull) as [t_sec|e2],
    (get rec "signals" (JObj [])) as [sigs|e3];
    try (cbn; split; [intros H; inversion H|discriminate]).
  apply watch_all_blind, Hb.
Qed.

Lemma run_blind st input s :
  blind st s →
  (s ∉ event_signals (run float_of_str round st input).1)
  ∧ ∀ st', (run float_of_str round st input).2 = Ok st' → blind st' s.
Proof.
  revert st. induction input as [|[l clock] input IH]; intros st Hb; cbn [run].
  { cbn. split; [intros H; inversion H|]. intros st' [= <-]. exact Hb. }
  pose proof (on_line_blind st l clock s Hb) as Hl. cbn zeta in Hl.
  destruct (on_line float_of_str round st l clock) as [out [st1|e]].
  2: { cbn [fst snd] in *. split; [exact (proj1 Hl)|discriminate]. }
  cbn [fst snd] in Hl. destruct Hl as [Hout Hb1].
  specialize (IH st1 (Hb1 st1 eq_refl)).
  destruct (run float_of_str round st1 input) as [out' r].
  cbn [fst snd] in *. rewrite event_signals_app. split; [|exact (proj2 IH)].
  rewrite elem_of_app. intros [H|H]; [exact (Hout H)|exact (proj1 IH H)].
Qed.

(** X12. A NaN mean silences a signal for the rest of the run.  From a
    state where the mean of signal [s] is NaN, whatever lines follow and
    whatever they hold, no Event of [s] is printed; and after any such
    lines that did not end the run with an exception, the mean of [s] is
    still NaN and the next sample of [s], whatever its value, gets the
    z-score NaN and the run length 0 and leaves the mean NaN.  So every
    z-score of [s] from there on is NaN. *)
Theorem nan_mean_silences_signal (st : state) (s : string)
    (input : list (line * (string → float))) :
  blind st s →
  (s ∉ event_signals (run float_of_str round st input).1)
  ∧ ∀ st', (run float_of_str round st input).2 = Ok st' →
           blind st' s
           ∧ ∀ x, ∃ st1, observe st' s x = Ok (st1, nan, 0) ∧ blind st1 s.
Proof.
  intros Hb. destruct (run_blind st input s Hb) as [Hout Hend].
  split; [exact Hout|]. intros st' Hst'. pose proof (Hend st' Hst') as Hb'.
  split; [exact Hb'|]. intros x.
  destruct (observe_blind st' s x Hb') as (st1 & Ho & Hb1 & _).
  exists st1. split; [exact Ho|exact Hb1].
Qed.

Lemma watch_all_nan_sample ss st ts t_sec sig clock s v x :
  well_formed st → (∀ s', s' ∈ ss → s' ∈ SIGNALS) →
  (∀ s' v', s' ∈ ss → assoc sig s' = Some v' → ∃ x', float_of float_of_str v' = Ok x') →
  assoc sig s = Some v → float_of float_of_str v = Ok x → is_nan x = true →
  blind st s ∨ s ∈ ss →
  let r := watch_all float_of_str round ss st ts t_sec (JObj sig) clock in
  (s ∉ event_signals r.1) ∧ ∃ st', r.2 = Ok st' ∧ blind st' s.
Proof.
  intros Hwf Hss Hconv Hv Hx Hn. revert st Hwf.
  induction ss as [|s0 ss IH]; intros st Hwf Hor; cbn [watch_all].
  { destruct Hor as [Hb|Hin]; [|inversion Hin]. cbn. split; [intros H; inversion H|eauto]. }
  assert (Hss' : ∀ s', s' ∈ ss → s' ∈ SIGNALS) by (intros; apply Hss; constructor; assumption).
  assert (Hconv' : ∀ s' v', s' ∈ ss → assoc sig s' = Some v' →
                            ∃ x', float_of float_of_str v' = Ok x')
    by (intros s' v' Hin; apply Hconv; constructor; assumption).
  assert (Hs0 : s0 ∈ SIGNALS) by (apply Hss; constructor).
  destruct (watch_total float_of_str round st ts t_sec sig (clock s0) s0 Hwf Hs0
              (λ v', Hconv s0 v' ltac:(constructor))) as (st1 & out & Hw).
  rewrite Hw.
  pose proof (watch_well_formed float_of_str round _ _ _ _ _ _ _ _ Hwf Hs0 Hw) as Hwf1.
  assert (Hout : (s ∉ event_signals out) ∧ (blind st1 s ∨ s ∈ ss)).
  { destruct (decide (s0 = s)) as [->|Hne].
    - destruct Hor as [Hb|_].
      + destruct (watch_blind _ _ _ _ _ _ _ _ Hb Hw) as [-> Hb1].
        split; [intros H; inversion H|left; exact Hb1].
      + destruct (watch_nan_sample st ts t_sec sig (clock s) s v x
                    (proj1 Hwf s Hs0) Hv Hx Hn) as (st2 & Hw2 & Hb2).
        rewrite Hw in Hw2. injection Hw2 as -> ->.
        split; [intros H; inversion H|left; exact Hb2].
    - destruct (watch_keeps_blind _ _ _ _ _ s _ _ _ Hne Hw) as [H1 H2].
      split; [exact H1|]. destruct Hor as [Hb|Hin]; [left; auto|right; inversion Hin; subst; [congruence|assumption]]. }
  destruct Hout as [Hout Hor1]. specialize (IH Hss' Hconv' st1 Hwf1 Hor1).
  cbn zeta in IH.
  destruct (watch_all float_of_str round ss st1 ts t_sec (JObj sig) clock) as [out' r].
  cbn [fst snd] in *. rewrite event_signals_app. split; [|exact (proj2 IH)].
  rewrite elem_of_app. intros [H|H]; [exact (Hout H)|exact (proj1 IH H)].
Qed.

(** X13. One NaN sample is enough.  On a state in good order, a line the
    engine can process and in which the value of a monitored signal [s]
    converts to NaN is processed without an exception, prints no Event of
    [s], and leaves the mean of [s] NaN. *)
Theorem nan_sample_blinds_signal (st : state) (kv sig : list (string * json))
    (clock : string → float) (s : string) (v : json) (x : float) :
  well_formed st → s ∈ SIGNALS →
  processable float_of_str (Decoded (JObj kv)) →
  assoc kv "signals" = Some (JObj sig) →
  assoc sig s = Some v → float_of float_of_str v = Ok x → is_nan x = true →
  (s ∉ event_signals (on_line float_of_str round st (Decoded (JObj kv)) clock).1)
  ∧ ∃ st', (on_line float_of_str round st (Decoded (JObj kv)) clock).2 = Ok st'
           ∧ blind st' s.
Proof.
  intros Hwf Hs Hp Hsig Hv Hx Hn. cbn [processable] in Hp. rewrite Hsig in Hp.
  cbn [on_line get]. rewrite Hsig. cbn [default from_option id].
  apply (watch_all_nan_sample SIGNALS st _ _ sig clock s v x); auto.
Qed.

End Blindness.

(** ** What a reported sample looks like *)

Lemma leb_abs_signed t z :
  positive_float t → (t <=? abs z)%float = true →
  positive_float z ∨ negative_float z.
Proof.
  unfold positive_float, negative_float.
  rewrite FloatAxioms.leb_spec, abs_spec.
  destruct (Prim2SF t) as [?|?| |? mt et]; cbn [SF_signed]; try contradiction;
    intros ->; destruct (Prim2SF z) as [?|[]| |[] m e]; cbn; try discriminate; auto.
Qed.

Lemma positive_float_gt x :
  positive_float x → (0 <? x)%float = true ∧ (x <? 0)%float = false.
Proof.
  unfold positive_float. rewrite !FloatAxioms.ltb_spec, Prim2SF_zero.
  destruct (Prim2SF x) as [s|s| |s m e]; simpl; try contradiction; intros ->; split; reflexivity.
Qed.

Lemma negative_float_lt x :
  negative_float x → (x <? 0)%float = true ∧ (0 <? x)%float = false.
Proof.
  unfold negative_float. rewrite !FloatAxioms.ltb_spec, Prim2SF_zero.
  destruct (Prim2SF x) as [s|s| |s m e]; simpl; try contradiction; intros ->; split; reflexivity.
Qed.

Lemma alert_implies_warn z :
  (ALERT_Z <=? abs z)%float = true → (WARN_Z <=? abs z)%float = true.
Proof.
  rewrite !FloatAxioms.leb_spec, abs_spec.
  change (Prim2SF ALERT_Z) with (S754_finite false 5066549580791808 (-50)).
  change (Prim2SF WARN_Z) with (S754_finite false 6755399441055744 (-51)).
  destruct (Prim2SF z) as [?|[]| |[] m e]; cbn [SFabs]; try (intros H; exact H);
    try reflexivity.
  all: unfold SFleb, SFcompare; cbn [negb].
  all: destruct (Z.compare_spec (-50) e) as [<-|Hlt|Hgt]; try discriminate;
    intros _; try reflexivity.
  all: destruct (Z.compare_spec (-51) e) as [He|He|He]; try reflexivity; lia.
Qed.

Lemma observe_run_length st s x st1 z rl :
  observe st s x = Ok (st1, z, rl) →
  ∃ rls, runlen st !! s = Some rls
         ∧ rl = (RunLength.update rls z).2.
Proof.
  unfold observe, item.
  destruct (stats st !! s) as [es|]; cbn; [|discriminate].
  destruct (EWStats.update es x) as [es' [mean var]].
  destruct (zscore x (Some mean) (Some var)) as [z0|]; cbn; [|discriminate].
  destruct (recents st !! s) as [dq|]; cbn; [|discriminate].
  destruct (runlen st !! s) as [rls|]; cbn; [|discriminate].
  destruct (RunLength.update rls z0) as [rls' rl0] eqn:Hu.
  intros [= <- <- <-]. exists rls. rewrite Hu. auto.
Qed.

(** X14. Every reported sample is itself at the warn level.  When a
    signal tracked with the configured threshold gets a severity, WARN or
    ALERT, the z-score of the current sample has [abs(z) >= WARN_Z]: a long
    run alone never reports a calm sample.  The run length is then at least
    1, and the z-score is neither zero nor NaN, so exactly one of [z > 0],
    [z < 0] holds and the direction in the deduplication key and in the
    diagnosis is the true one. *)
Theorem reported_sample_is_at_warn_level (st : state) (s : string) (x : float)
    (st1 : state) (z : float) (rl : nat) (sev : severity) :
  tracked st s →
  observe st s x = Ok (st1, z, rl) →
  decide_severity z rl = Some sev →
  warn_condition z ∧ 1 ≤ rl
  ∧ ((0 <? z)%float = true ∧ (z <? 0)%float = false
     ∨ (z <? 0)%float = true ∧ (0 <? z)%float = false).
Proof.
  intros (es & rls & dq & _ & _ & _ & Hrls & Hthr & _) Ho Hsev.
  destruct (observe_run_length _ _ _ _ _ _ Ho) as (rls' & Hrls' & Hrl).
  rewrite Hrls in Hrls'. injection Hrls' as <-.
  unfold RunLength.update in Hrl. rewrite Hthr in Hrl.
  assert (Hw : warn_condition z).
  { unfold warn_condition. unfold decide_severity in Hsev.
    destruct (WARN_Z <=? abs z)%float eqn:Hwz; [reflexivity|].
    cbn [snd] in Hrl. subst rl.
    destruct (ALERT_Z <=? abs z)%float eqn:Haz.
    - rewrite (alert_implies_warn z Haz) in Hwz. discriminate.
    - discriminate Hsev. }
  split; [exact Hw|]. unfold warn_condition in Hw. rewrite Hw in Hrl. cbn [snd] in Hrl.
  split; [lia|].
  destruct (leb_abs_signed WARN_Z z) as [Hp|Hn]; [reflexivity|exact Hw| |].
  - left. apply positive_float_gt, Hp.
  - right. apply negative_float_lt, Hn.
Qed.

(** ** Signals do not touch each other *)

(** The deduplication keys of two monitored signals differ. *)
Lemma dedup_key_signal sev sev' s s' z z' :
  s ∈ SIGNALS → s' ∈ SIGNALS →
  dedup_key sev s z = dedup_key sev' s' z' → s = s'.
Proof.
  unfold SIGNALS, dedup_key. rewrite !elem_of_cons, !elem_of_nil.
  intros [->|[->|[->|[->|[]]]]] [->|[->|[->|[->|[]]]]];
    destruct sev, sev', (0 <? z)%float, (0 <? z')%float;
    intros H; first [reflexivity | discriminate H].
Qed.

Lemma observe_last_emit st s x st1 z rl :
  observe st s x = Ok (st1, z, rl) → last_emit st1 = last_emit st.
Proof.
  unfold observe, item.
  destruct (stats st !! s) as [es|]; cbn; [|discriminate].
  destruct (EWStats.update es x) as [es' [mean var]].
  destruct (zscore x (Some mean) (Some var)) as [z0|]; cbn; [|discriminate].
  destruct (recents st !! s) as [dq|]; cbn; [|discriminate].
  destruct (runlen st !! s) as [rls|]; cbn; [|discriminate].
  destruct (RunLength.update rls z0) as [rls' rl0].
  intros [= <- <- <-]. reflexivity.
Qed.

Section Frame.
Variable float_of_str : string → option float.
Variable round : float → Z → float.

Lemma report_last_emit st ts t_sec s x z rl now k :
  (∀ sev z', k ≠ dedup_key sev s z') →
  last_emit (report round st ts t_sec s x z rl now).1 !! k = last_emit st !! k.
Proof.
  intros Hk. unfold report. destruct (decide_severity z rl) as [sev|]; [|reflexivity].
  destruct (gate_open st (dedup_key sev s z) now) eqn:Hg.
  - rewrite (emit_open round _ _ _ _ _ _ _ _ Hg). cbn [fst last_emit].
    apply lookup_insert_ne. intros H. exact (Hk sev z (eq_sym H)).
  - rewrite (emit_closed round _ _ _ _ _ _ _ _ Hg). reflexivity.
Qed.

Lemma watch_last_emit st ts t_sec sigs now s st' out k :
  (∀ sev z', k ≠ dedup_key sev s z') →
  watch float_of_str round st ts t_sec sigs now s = Ok (st', out) →
  last_emit st' !! k = last_emit st !! k.
Proof.
  intros Hk. unfold watch.
  destruct (contains sigs s) as [[]|]; cbn; try discriminate.
  2: { intros [= <- <-]. reflexivity. }
  destruct (getitem sigs s) as [v|]; cbn; try discriminate.
  destruct (float_of float_of_str v) as [x|]; cbn; try discriminate.
  destruct (observe st s x) as [[[st1 z] rl]|] eqn:Ho; cbn; try discriminate.
  intros [= H].
  pose proof (report_last_emit st1 ts t_sec s x z rl now k Hk) as Hr.
  rewrite H in Hr. cbn [fst] in Hr. rewrite Hr, (observe_last_emit _ _ _ _ _ _ Ho).
  reflexivity.
Qed.

Lemma same_for_refl s st : same_for s st st.
Proof. repeat split. Qed.

Lemma same_for_trans s st1 st2 st3 :
  same_for s st1 st2 → same_for s st2 st3 → same_for s st1 st3.
Proof.
  intros (A1 & A2 & A3 & A4) (B1 & B2 & B3 & B4).
  split; [congruence|]. split; [congruence|]. split; [congruence|].
  intros sev z. rewrite B4. apply A4.
Qed.

Lemma watch_frame st ts t_sec sigs now s s' st' out :
  s ∈ SIGNALS → s' ∈ SIGNALS → s' ≠ s →
  watch float_of_str round st ts t_sec sigs now s' = Ok (st', out) →
  same_for s st st' ∧ (s ∉ event_signals out).
Proof.
  intros Hs Hs' Hne Hw.
  destruct (watch_other round float_of_str _ _ _ _ _ _ _ _ _ Hne Hw) as (H1 & H2 & H3).
  split; [repeat split; try assumption|].
  - intros sev z. apply (λ Hk, watch_last_emit _ _ _ _ _ _ _ _ _ Hk Hw).
    intros sev' z' H. apply Hne. symmetry. exact (dedup_key_signal _ _ _ _ _ _ Hs Hs' H).
  - destruct (watch_shape float_of_str round _ _ _ _ _ _ _ _ Hw)
      as [-> | (ev & Hsig & _ & _ & [-> | [_ ->]])]; cbn; rewrite ?Hsig;
      rewrite ?elem_of_cons, elem_of_nil; intuition congruence.
Qed.

Lemma watch_all_frame ss st ts t_sec sigs clock s :
  s ∈ SIGNALS → (∀ s', s' ∈ ss → s' ∈ SIGNALS) →
  contains sigs s = Ok false →
  let r := watch_all float_of_str round ss st ts t_sec sigs clock in
  (s ∉ event_signals r.1) ∧ ∀ st', r.2 = Ok st' → same_for s st st'.
Proof.
  intros Hs Hss Hc. revert st Hss.
  induction ss as [|s0 ss IH]; intros st Hss; cbn [watch_all].
  { cbn. split; [intros H; inversion H|]. intros st' [= <-]. apply same_for_refl. }
  destruct (watch float_of_str round st ts t_sec sigs (clock s0) s0)
    as [[st1 out]|e] eqn:Hw.
  2: { cbn. split; [intros H; inversion H|discriminate]. }
  assert (Hout : same_for s st st1 ∧ (s ∉ event_signals out)).
  { destruct (decide (s0 = s)) as [->|Hne].
    - unfold watch in Hw. rewrite Hc in Hw. cbn in Hw. injection Hw as <- <-.
      split; [apply same_for_refl|intros H; inversion H].
    - apply (watch_frame st ts t_sec sigs (clock s0) s s0 st1 out Hs); auto.
      apply Hss. constructor. }
  destruct Hout as [Hsame Hout].
  specialize (IH st1 (λ s' H, Hss s' ltac:(constructor; exact H))). cbn zeta in IH.
  destruct (watch_all float_of_str round ss st1 ts t_sec sigs clock) as [out' r].
  cbn [fst snd] in *. rewrite event_signals_app. split.
  - rewrite elem_of_app. intros [H|H]; [exact (Hout H)|exact (proj1 IH H)].
  - intros st' Hr. exact (same_for_trans s st st1 st' Hsame (proj2 IH st' Hr)).
Qed.

(** X15. A signal that a record does not carry is left alone.  When the
    ["signals"] entry of a record does not contain the monitored signal [s]
    (line 144, [if s not in sigs: continue]), processing the record prints no
    Event of [s] and, whatever the other signals do, leaves mean, variance,
    run length, recent window and last-emission entries of [s] as they
    were. *)
Theorem absent_signal_is_untouched (st : state) (rec : json)
    (clock : string → float) (s : string) :
  s ∈ SIGNALS →
  (∀ sigs, get rec "signals" (JObj []) = Ok sigs → contains sigs s = Ok false) →
  (s ∉ event_signals (on_line float_of_str round st (Decoded rec) clock).1)
  ∧ ∀ st', (on_line float_of_str round st (Decoded rec) clock).2 = Ok st' →
           same_for s st st'.
Proof.
  intros Hs Hc. cbn [on_line].
  destruct (get rec "ts" JNull) as [ts|e1], (get rec "t_sec" JNull) as [t_sec|e2],
    (get rec "signals" (JObj [])) as [sigs|e3];
    try (cbn; split; [intros H; inversion H|discriminate]).
  apply watch_all_frame; auto.
Qed.

End Frame.

(** ** The properties at concrete inputs *)

Lemma states_met_in_a_run :
  (run (λ _, None) (λ x _, x) init_state [sample 0 [("bed_temp_c", JNum 60)]]).2
  = Ok warmed_up
  ∧ (run (λ _, None) (λ x _, x) init_state [sample 0 [("bed_temp_c", JNum nan)]]).2
    = Ok blinded.
Proof. split; vm_compute; reflexivity. Qed.

Lemma nan_mean_silences_signal_witness :
  let input := [sample 1 [("bed_temp_c", JNum 1e9)];
                sample 9 [("bed_temp_c", JInt 60); ("nozzle_temp_c", JNum 205)]] in
  ("bed_temp_c" ∉ event_signals (run (λ _, None) (λ x _, x) blinded input).1)
  ∧ ∀ st', (run (λ _, None) (λ x _, x) blinded input).2 = Ok st' →
           blind st' "bed_temp_c"
           ∧ ∀ x, ∃ st1, observe st' "bed_temp_c" x = Ok (st1, nan, 0)
                         ∧ blind st1 "bed_temp_c".
Proof.
  intros input.
  apply (nan_mean_silences_signal (λ _, None) (λ x _, x) blinded "bed_temp_c").
  exists (EWStats.mk ALPHA (Some nan) (Some 0%float)), (RunLength.init WARN_Z),
    [nan], nan.
  repeat split; vm_compute; reflexivity.
Defined.

Lemma nan_sample_blinds_signal_witness :
  ∃ st', (on_line (λ _, None) (λ x _, x) warmed_up
            (sample 1 [("bed_temp_c", JNum nan)]).1 (λ _, 1%float)).2 = Ok st'
         ∧ blind st' "bed_temp_c".
Proof.
  refine (proj2 (nan_sample_blinds_signal (λ _, None) (λ x _, x) warmed_up
                   _ [("bed_temp_c", JNum nan)] (λ _, 1%float) "bed_temp_c"
                   (JNum nan) nan _ _ _ _ _ _ _)); try reflexivity.
  - split.
    + intros s Hs. unfold SIGNALS in Hs.
      repeat (apply elem_of_cons in Hs as [->|Hs]);
        [| | | |apply elem_of_nil in Hs; destruct Hs].
      2: exists (EWStats.mk ALPHA (Some 60%float) (Some 0%float)),
           (RunLength.init WARN_Z), [60%float].
      1,3,4: exists (EWStats.init ALPHA), (RunLength.init WARN_Z), [].
      all: repeat split; try (vm_compute; reflexivity);
        try (intros H; discriminate H); try (left; reflexivity);
        unfold TREND_WINDOW; cbn; lia.
    + intros k [v Hk]. vm_compute in Hk. discriminate Hk.
  - unfold SIGNALS. rewrite !elem_of_cons. auto.
  - intros s v Hs Hv. unfold SIGNALS in Hs.
    repeat (apply elem_of_cons in Hs as [->|Hs]);
      try (apply elem_of_nil in Hs; destruct Hs);
      vm_compute in Hv; try discriminate Hv;
      injection Hv as <-; eexists; reflexivity.
Defined.

Lemma reported_sample_is_at_warn_level_witness :
  ∃ st1 z rl,
    observe warmed_up "bed_temp_c" 61 = Ok (st1, z, rl)
    ∧ warn_condition z ∧ 1 ≤ rl
    ∧ ((0 <? z)%float = true ∧ (z <? 0)%float = false
       ∨ (z <? 0)%float = true ∧ (0 <? z)%float = false).
Proof.
  destruct (observe warmed_up "bed_temp_c" 61) as [[[st1 z] rl]|e] eqn:Ho;
    [|vm_compute in Ho; discriminate Ho].
  exists st1, z, rl. split; [reflexivity|].
  apply (reported_sample_is_at_warn_level warmed_up "bed_temp_c" 61 st1 z rl WARN).
  - exists (EWStats.mk ALPHA (Some 60%float) (Some 0%float)),
      (RunLength.init WARN_Z), [60%float].
    repeat split; try (vm_compute; reflexivity);
      try (intros H; discriminate H); try (left; reflexivity);
      unfold TREND_WINDOW; cbn; lia.
  - exact Ho.
  - vm_compute in Ho. injection Ho as _ <- <-. vm_compute. reflexivity.
Defined.

Lemma absent_signal_is_untouched_witness :
  "nozzle_temp_c"
  ∉ event_signals
      (on_line (λ _, None) (λ x _, x) warmed_up
         (sample 1 [("bed_temp_c", JNum 61)]).1 (λ _, 1%float)).1.
Proof.
  refine (proj1 (absent_signal_is_untouched (λ _, None) (λ x _, x) warmed_up
                   _ (λ _, 1%float) "nozzle_temp_c" _ _)).
  - unfold SIGNALS. rewrite !elem_of_cons. auto.
  - intros sigs H. vm_compute in H. injection H as <-. reflexivity.
Defined.
